(** * osu!mania -> Vectra converter: a shallow embedding of [main.py]

    The development follows the three stages of the converter:
    - [parse_osu_hitobjects], the chart reader;
    - [map_column_x_to_Vectra_x], the coordinate mapper;
    - [generate_map_lua], the output generator, fed by the driver's
      [sorted(hitobjects, key=time)].

    Python values are modelled as follows.  An [int] is a [Z].  A [str] is a
    [string] whose characters are the code points below 256.  A [float] is an
    IEEE 754 binary64 number, modelled by its rational value together with
    the two infinities and NaN; every arithmetic operation rounds the exact
    result to nearest, ties to even.  An exception is a value of [exn] and a
    computation that may raise returns a [result]. *)

From Stdlib Require Import ZArith QArith Qround Qpower Lqa Lia.
From Stdlib Require Import List String Ascii Bool Sorted Permutation.
From Stdlib Require Import DecimalString Floats.SpecFloat.
Import ListNotations.

Local Open Scope Z_scope.

(** ** Exceptions *)

Inductive exn : Set := ValueError | ZeroDivisionError | OverflowError.

Inductive result (A : Type) : Type :=
| Ok (a : A)
| Raise (e : exn).

Arguments Ok {A} a.
Arguments Raise {A} e.

Definition bind {A B : Type} (r : result A) (k : A -> result B) : result B :=
  match r with
  | Ok a => k a
  | Raise e => Raise e
  end.

Notation "x <- r ;; k" := (bind r (fun x => k))
  (at level 61, r at next level, right associativity).

(** ** Binary64 floating point *)

Module PyFloat.

Inductive float : Type :=
| Fin (q : Q)
| Inf (neg : bool)
| NaN.

Definition bpow (e : Z) : Q := (2 ^ e)%Q.

Arguments bpow : simpl never.

(** [Qlog2 q] is the integer [e] with [2^e <= q < 2^(e+1)], for [0 < q]. *)
Definition Qlog2 (q : Q) : Z :=
  let e0 := Z.log2 (Qnum q) - Z.log2 (Zpos (Qden q)) in
  if Qle_bool (bpow e0) q then e0 else e0 - 1.

(** Nearest integer, ties to even. *)
Definition rne (q : Q) : Z :=
  let f := Qfloor q in
  match (q - inject_Z f ?= 1 # 2)%Q with
  | Lt => f
  | Gt => f + 1
  | Eq => if Z.even f then f else f + 1
  end.

(** 53 bits of precision; the least exponent of the last place is -1074
    (subnormal numbers) and 2^1024 is the overflow threshold. *)
Definition ulp_exp (q : Q) : Z := Z.max (Qlog2 q - 52) (-1074).

Definition round_pos (q : Q) : Q :=
  (inject_Z (rne (q / bpow (ulp_exp q))) * bpow (ulp_exp q))%Q.

Definition round (q : Q) : float :=
  match (q ?= 0)%Q with
  | Eq => Fin 0
  | Gt => let r := round_pos q in
          if Qle_bool (bpow 1024) r then Inf false else Fin r
  | Lt => let r := round_pos (- q) in
          if Qle_bool (bpow 1024) r then Inf true else Fin (- r)
  end.

Definition Qneg (q : Q) : bool := negb (Qle_bool 0 q).

(** The IEEE operations.  The sign of a zero is not modelled: the only
    operation of the source that could observe it is a division by zero,
    which Python turns into [ZeroDivisionError] for either sign. *)
Definition div (a b : float) : float :=
  match a, b with
  | NaN, _ | _, NaN => NaN
  | Inf _, Inf _ => NaN
  | Inf s, Fin q => Inf (xorb s (Qneg q))
  | Fin _, Inf _ => Fin 0
  | Fin p, Fin q => round (p / q)
  end.

Definition mul (a b : float) : float :=
  match a, b with
  | NaN, _ | _, NaN => NaN
  | Inf s, Inf t => Inf (xorb s t)
  | Inf s, Fin q | Fin q, Inf s =>
      if Qeq_bool q 0 then NaN else Inf (xorb s (Qneg q))
  | Fin p, Fin q => round (p * q)
  end.

Definition add (a b : float) : float :=
  match a, b with
  | NaN, _ | _, NaN => NaN
  | Inf s, Inf t => if Bool.eqb s t then Inf s else NaN
  | Inf s, Fin _ | Fin _, Inf s => Inf s
  | Fin p, Fin q => round (p + q)
  end.

(** The order of the extended real line; NaN is unordered. *)
Definition fle (a b : float) : Prop :=
  match a, b with
  | Fin p, Fin q => (p <= q)%Q
  | Inf true, (Fin _ | Inf _) => True
  | Fin _, Inf false => True
  | Inf false, Inf false => True
  | _, _ => False
  end.

Definition is_zero (a : float) : bool :=
  match a with
  | Fin q => Qeq_bool q 0
  | _ => false
  end.

(** Truncation toward zero. *)
Definition Qtrunc (q : Q) : Z :=
  if Qle_bool 0 q then Qfloor q else Qceiling q.

End PyFloat.

Import PyFloat.

(** ** Python's arithmetic on [int] and [float] *)

(** [float(x)] for an int, as done implicitly in mixed arithmetic. *)
Definition float_of_int (x : Z) : result float :=
  match round (inject_Z x) with
  | Inf _ => Raise OverflowError
  | f => Ok f
  end.

(** [a / b] on two ints: the correctly rounded quotient. *)
Definition int_truediv (a b : Z) : result float :=
  if b =? 0 then Raise ZeroDivisionError
  else match round (inject_Z a / inject_Z b) with
       | Inf _ => Raise OverflowError
       | f => Ok f
       end.

(** [a / b] on two floats. *)
Definition float_truediv (a b : float) : result float :=
  if is_zero b then Raise ZeroDivisionError else Ok (div a b).

(** [x / b] with [x] an int and [b] a float. *)
Definition int_div_float (x : Z) (b : float) : result float :=
  a <- float_of_int x ;; float_truediv a b.

(** [a / y] with [a] a float and [y] an int. *)
Definition float_div_int (a : float) (y : Z) : result float :=
  b <- float_of_int y ;; float_truediv a b.

(** [x * b] with [x] an int and [b] a float. *)
Definition int_mul_float (x : Z) (b : float) : result float :=
  a <- float_of_int x ;; Ok (mul a b).

(** [int(f)] on a float. *)
Definition int_of_float (f : float) : result Z :=
  match f with
  | Fin q => Ok (Qtrunc q)
  | Inf _ => Raise OverflowError
  | NaN => Raise ValueError
  end.

(** ** The coordinate mapper *)

Definition clamp_col (col keys : Z) : Z :=
  let col := if col <? 0 then 0 else col in
  if col >=? keys then keys - 1 else col.

(** [int(col * (osu_playfield_width / keys) + (osu_playfield_width / keys) / 2)] *)
Definition column_center (col keys osu_playfield_width : Z) : result Z :=
  w <- int_truediv osu_playfield_width keys ;;
  left <- int_mul_float col w ;;
  w' <- int_truediv osu_playfield_width keys ;;
  half <- float_div_int w' 2 ;;
  int_of_float (add left half).

(** [int(x / col_width)] with [col_width = osu_playfield_width / keys] *)
Definition column_index (x keys osu_playfield_width : Z) : result Z :=
  col_width <- int_truediv osu_playfield_width keys ;;
  q <- int_div_float x col_width ;;
  int_of_float q.

Definition map_column_x_to_Vectra_x (x keys osu_playfield_width : Z)
  : result Z :=
  col <- column_index x keys osu_playfield_width ;;
  let col := clamp_col col keys in
  column_center col keys osu_playfield_width.

(** The centres of the columns [0 .. keys-1], in order. *)
Definition column_centers (keys osu_playfield_width : Z) : list (result Z) :=
  map (fun i => column_center (Z.of_nat i) keys osu_playfield_width)
      (seq 0 (Z.to_nat keys)).

(** ** Python's [str] methods *)

Local Open Scope string_scope.

Module PyStr.

Definition code (c : ascii) : N := N_of_ascii c.

Definition in_range (lo hi : N) (c : ascii) : bool :=
  ((lo <=? code c) && (code c <=? hi))%N.

(** [str.isspace] on one character: the white space of Unicode below 256. *)
Definition is_space (c : ascii) : bool :=
  in_range 9 13 c || in_range 28 32 c || in_range 133 133 c
  || in_range 160 160 c.

(** The white space that [int()] skips: characters below 127 count when C's
    [isspace] accepts them, the others when [str.isspace] does. *)
Definition is_int_space (c : ascii) : bool :=
  in_range 9 13 c || in_range 32 32 c || in_range 133 133 c
  || in_range 160 160 c.

(** The line boundaries of [str.splitlines]. *)
Definition is_linebreak (c : ascii) : bool :=
  in_range 10 13 c || in_range 28 30 c || in_range 133 133 c.

Definition is_digit (c : ascii) : bool := in_range 48 57 c.

Definition digit_value (c : ascii) : Z := Z.of_N (code c) - 48.

Definition is_empty (s : string) : bool :=
  match s with
  | EmptyString => true
  | String _ _ => false
  end.

(** [s.splitlines()]: a carriage return followed by a line feed is one
    boundary, and no empty line follows the last boundary. *)
Fixpoint splitlines (s : string) : list string :=
  match s with
  | EmptyString => []
  | String c s' =>
      if is_linebreak c then
        if Ascii.eqb c "013" then
          match s' with
          | String c' s'' =>
              if Ascii.eqb c' "010" then "" :: splitlines s''
              else "" :: splitlines s'
          | EmptyString => "" :: splitlines s'
          end
        else "" :: splitlines s'
      else
        match splitlines s' with
        | [] => [String c ""]
        | l :: ls => String c l :: ls
        end
  end.

Fixpoint lstrip_with (sp : ascii -> bool) (s : string) : string :=
  match s with
  | EmptyString => EmptyString
  | String c s' => if sp c then lstrip_with sp s' else s
  end.

Fixpoint rstrip_with (sp : ascii -> bool) (s : string) : string :=
  match s with
  | EmptyString => EmptyString
  | String c s' =>
      let r := rstrip_with sp s' in
      if sp c && is_empty r then EmptyString else String c r
  end.

Definition strip_with (sp : ascii -> bool) (s : string) : string :=
  rstrip_with sp (lstrip_with sp s).

(** [s.strip()] *)
Definition strip (s : string) : string := strip_with is_space s.

(** [s.startswith(p)] *)
Definition startswith (p s : string) : bool := String.prefix p s.

(** [s.endswith(p)] *)
Definition endswith (p s : string) : bool :=
  (String.length p <=? String.length s)%nat
  && String.eqb (substring (String.length s - String.length p)
                           (String.length p) s) p.

(** [s[1:-1]] *)
Definition slice_1_m1 (s : string) : string :=
  substring 1 (String.length s - 2) s.

(** [s.split(sep)] for a separator of one character. *)
Fixpoint split (sep : ascii) (s : string) : list string :=
  match s with
  | EmptyString => [""]
  | String c s' =>
      if Ascii.eqb c sep then "" :: split sep s'
      else match split sep s' with
           | [] => [String c ""]
           | l :: ls => String c l :: ls
           end
  end.

(** [s.replace(a, b)] for single characters. *)
Fixpoint replace (a b : ascii) (s : string) : string :=
  match s with
  | EmptyString => EmptyString
  | String c s' => String (if Ascii.eqb c a then b else c) (replace a b s')
  end.

(** [sep.join(l)] *)
Definition join (sep : string) (l : list string) : string :=
  String.concat sep l.

(** [str(z)] for an int. *)
Definition str (z : Z) : string := NilZero.string_of_int (Z.to_int z).

(** The longest prefix of digits and what follows it. *)
Fixpoint span_digits (s : string) : string * string :=
  match s with
  | EmptyString => ("", "")
  | String c s' =>
      if is_digit c then
        let (d, r) := span_digits s' in (String c d, r)
      else ("", s)
  end.

(** [re.match(r"(\d+):", s)]: the first group of the match, if any. *)
Definition re_match_digits_colon (s : string) : option string :=
  match span_digits s with
  | (String c d, String c' _) =>
      if Ascii.eqb c' ":" then Some (String c d) else None
  | _ => None
  end.

(** The digits of an int literal, single underscores allowed between them:
    the value and the number of digits. *)
Fixpoint int_digits (s : string) (acc count : Z) (after_underscore : bool)
  : option (Z * Z) :=
  match s with
  | EmptyString => if after_underscore then None else Some (acc, count)
  | String c s' =>
      if is_digit c then
        int_digits s' (10 * acc + digit_value c) (count + 1) false
      else if Ascii.eqb c "_" then
        if after_underscore then None else int_digits s' acc count true
      else None
  end.

Definition int_literal (s : string) : option (Z * Z) :=
  match s with
  | String c _ => if is_digit c then int_digits s 0 0 false else None
  | EmptyString => None
  end.

Section Int.

(** [sys.get_int_max_str_digits()]: 4300 by default since CPython 3.11,
    0 when there is no limit. *)
Variable max_str_digits : Z.

(** [int(s)] for a string, in base 10. *)
Definition int (s : string) : result Z :=
  let body := strip_with is_int_space s in
  let (neg, lit) :=
    match body with
    | String c r =>
        if Ascii.eqb c "-" then (true, r)
        else if Ascii.eqb c "+" then (false, r)
        else (false, body)
    | EmptyString => (false, body)
    end in
  match int_literal lit with
  | Some (v, count) =>
      if ((640 <? count) && (0 <? max_str_digits)
          && (max_str_digits <? count))%Z
      then Raise ValueError
      else Ok (if neg then - v else v)
  | None => Raise ValueError
  end.

End Int.

End PyStr.

(** ** The chart reader *)

Module Note.

(** A parsed hit object: the dict with keys ['x'], ['time'], ['type'] and
    ['end_time']. *)
Record t : Set := mk { x : Z; time : Z; type : Z; end_time : option Z }.

End Note.

Record meta : Set := { timing_points : list string }.

Record reader_state : Set := {
  section : option string;
  hitobjects : list Note.t;
  r_timing_points : list string
}.

Definition initial_state : reader_state :=
  {| section := None; hitobjects := []; r_timing_points := [] |}.

(** [ln.startswith('[') and ln.endswith(']')] *)
Definition is_section_header (ln : string) : bool :=
  PyStr.startswith "[" ln && PyStr.endswith "]" ln.

(** [not ln or ln.startswith('//')] *)
Definition is_skipped (ln : string) : bool :=
  PyStr.is_empty ln || PyStr.startswith "//" ln.

Definition section_is (name : string) (st : reader_state) : bool :=
  match section st with
  | Some s => String.eqb s name
  | None => false
  end.

Section Reader.

Variable max_str_digits : Z.

Definition int := PyStr.int max_str_digits.

(** The hold-note branch of the loop body: the end time, when there is one. *)
Definition parse_end_time (type_val : Z) (parts : list string)
  : result (option Z) :=
  if negb (Z.land type_val 128 =? 0)%Z then
    if (6 <=? List.length parts)%nat then
      let obj := nth 5 parts "" in
      match PyStr.re_match_digits_colon obj with
      | Some g =>
          match int g with
          | Ok v => Ok (Some v)
          | Raise ValueError => Ok None
          | Raise e => Raise e
          end
      | None => Ok None
      end
    else Ok None
  else Ok None.

(** One line of [[HitObjects]] with at least five fields. *)
Definition parse_hitobject (parts : list string) : result Note.t :=
  x <- int (nth 0 parts "") ;;
  time <- int (nth 2 parts "") ;;
  type_val <- int (nth 3 parts "") ;;
  end_time <- parse_end_time type_val parts ;;
  Ok (Note.mk x time type_val end_time).

(** The body of the loop over the lines. *)
Definition parse_line (st : reader_state) (ln : string) : result reader_state :=
  let ln := PyStr.strip ln in
  if is_skipped ln then Ok st
  else if is_section_header ln then
    Ok {| section := Some (PyStr.slice_1_m1 ln);
          hitobjects := hitobjects st;
          r_timing_points := r_timing_points st |}
  else if section_is "HitObjects" st then
    let parts := PyStr.split "," ln in
    if (List.length parts <? 5)%nat then Ok st
    else
      n <- parse_hitobject parts ;;
      Ok {| section := section st;
            hitobjects := (hitobjects st ++ [n])%list;
            r_timing_points := r_timing_points st |}
  else if section_is "TimingPoints" st then
    Ok {| section := section st;
          hitobjects := hitobjects st;
          r_timing_points := (r_timing_points st ++ [ln])%list |}
  else Ok st.

Fixpoint parse_lines (lines : list string) (st : reader_state)
  : result reader_state :=
  match lines with
  | [] => Ok st
  | ln :: rest => st' <- parse_line st ln ;; parse_lines rest st'
  end.

Definition parse_osu_hitobjects (osu_text : string)
  : result (list Note.t * meta) :=
  st <- parse_lines (PyStr.splitlines osu_text) initial_state ;;
  Ok (hitobjects st, {| timing_points := r_timing_points st |}).

End Reader.

(** The section in force after some lines, which depends on the headers
    alone. *)
Definition next_section (sec : option string) (ln : string) : option string :=
  let ln := PyStr.strip ln in
  if is_skipped ln then sec
  else if is_section_header ln then Some (PyStr.slice_1_m1 ln)
  else sec.

Definition section_after (lines : list string) (sec : option string)
  : option string :=
  fold_left next_section lines sec.

(** ** The output generator *)

(** The double quote, and [fmt.format(arg)] for a format with one [{}]:
    the text before the braces, the argument, the text after them. *)
Definition dquote : string := String "034" "".

Definition format1 (before arg after : string) : string :=
  before ++ arg ++ after.

(** [n['end_time'] or n['time']]: a missing end time and an end time of 0
    both give the time. *)
Definition end_or_time (n : Note.t) : Z :=
  match Note.end_time n with
  | Some e => if (e =? 0)%Z then Note.time n else e
  | None => Note.time n
  end.

(** [max(...)] of a non-empty sequence, given its first element. *)
Definition py_max (first : Z) (rest : list Z) : Z :=
  fold_left Z.max rest first.

(** [max((n['end_time'] or n['time']) for n in notes) if notes else 0] *)
Definition max_time (notes : list Note.t) : Z :=
  match notes with
  | [] => 0
  | n :: ns => py_max (end_or_time n) (map end_or_time ns)
  end.

(** [int((max_time // 1000) + 1)] *)
Definition chart_length (notes : list Note.t) : Z :=
  max_time notes / 1000 + 1.

(** The lines appended to [header] before the loop over the notes. *)
Definition header_lines (title song : string) (notes : list Note.t)
  : list string :=
  [ "map = { }";
    "";
    "function map:getBackground()";
    format1 ("  return " ++ dquote ++ "maps/") title ("/bg.jpg" ++ dquote);
    "end";
    "";
    "function map:getTitle()";
    format1 ("  return " ++ dquote) title dquote;
    "end";
    "";
    "function map:getDifficult()";
    "  return " ++ dquote ++ "Converted" ++ dquote;
    "end";
    "";
    "function map:getPorter()";
    "  return " ++ dquote ++ "osu-converter" ++ dquote;
    "end";
    "";
    "function map:getSong()";
    format1 ("  return " ++ dquote) (PyStr.replace "\" "/" song) dquote;
    "end";
    "";
    "function map:getLength()";
    format1 "  return " (PyStr.str (chart_length notes)) "";
    "end";
    "";
    "function map:getNotes()";
    "  -- (0 = none, 1 = normal, 2 = reverse, 3 = bad), (448 = up, 64 = down, 192 = left, 320 = right), speed, slider length, milliseconds to spawn";
    "  return {" ].

(** The lines appended after the loop. *)
Definition footer_lines : list string :=
  [ "  }"; "end"; ""; "return map" ].

(** ['    {{{}, {}, {}, {}, {}}},'.format(t, ex, speed, slider_len, time_ms)] *)
Definition format_note (t ex speed slider_len time_ms : Z) : string :=
  "    {" ++ PyStr.str t ++ ", " ++ PyStr.str ex ++ ", " ++ PyStr.str speed
  ++ ", " ++ PyStr.str slider_len ++ ", " ++ PyStr.str time_ms ++ "},".

(** The body of the loop over the notes. *)
Definition note_line (keys : Z) (n : Note.t) : result string :=
  ex <- map_column_x_to_Vectra_x (Note.x n) keys 512 ;;
  let t := 1 in
  let speed := 400 in
  let slider_len := 0 in
  let time_ms := Note.time n in
  Ok (format_note t ex speed slider_len time_ms).

(** The loop: [lines] grows by one line per note. *)
Fixpoint note_lines (keys : Z) (notes : list Note.t) (lines : list string)
  : result (list string) :=
  match notes with
  | [] => Ok lines
  | n :: rest =>
      l <- note_line keys n ;;
      note_lines keys rest (lines ++ [l])%list
  end.

(** The list [header] when the function returns. *)
Definition map_lua_lines (title song : string) (notes : list Note.t)
  (keys : Z) : result (list string) :=
  let header := header_lines title song notes in
  lines <- note_lines keys notes [] ;;
  Ok (header ++ lines ++ footer_lines)%list.

(** The line feed. *)
Definition nl : string := String "010" "".

Definition generate_map_lua (title song : string) (notes : list Note.t)
  (keys : Z) : result string :=
  header <- map_lua_lines title song notes keys ;;
  Ok (PyStr.join nl header).

(** ** The driver *)

(** [sorted(hitobjects, key=lambda x: x['time'])].  Python's sort is stable,
    which determines its result; it is computed here by insertion. *)
Fixpoint insert_by_time (n : Note.t) (l : list Note.t) : list Note.t :=
  match l with
  | [] => [n]
  | m :: l' =>
      if (Note.time n <=? Note.time m)%Z then n :: m :: l'
      else m :: insert_by_time n l'
  end.

Fixpoint sorted_by_time (l : list Note.t) : list Note.t :=
  match l with
  | [] => []
  | n :: l' => insert_by_time n (sorted_by_time l')
  end.

(** [main] from the text of the input file to the text of [map.lua], with
    the title taken from the file name. *)
Definition convert (max_str_digits : Z) (osu_text title : string) (keys : Z)
  : result string :=
  parsed <- parse_osu_hitobjects max_str_digits osu_text ;;
  let song_path := format1 "maps/" title "/song.mp3" in
  let notes := sorted_by_time (fst parsed) in
  generate_map_lua title song_path notes keys.

(** ** What the specification says *)

(** The end point of a note in the words of the specification: the end
    time if present, else the time. *)
Definition spec_endpoint (n : Note.t) : Z :=
  match Note.end_time n with
  | Some e => e
  | None => Note.time n
  end.

(** The tuple of a rendered note. *)
Definition note_tuple (n : Note.t) (dest_x : Z) : Z * Z * Z * Z * Z :=
  (1, dest_x, 400, 0, Note.time n).

Definition render_tuple (t : Z * Z * Z * Z * Z) : string :=
  let '(a, b, c, d, e) := t in format_note a b c d e.

(** The note table for the notes and their mapped coordinates. *)
Definition rendered_notes (notes : list Note.t) (dest : list Z) : list string :=
  map (fun p => render_tuple (note_tuple (fst p) (snd p))) (combine notes dest).

(** [dest] holds the mapper's output for each note, in order. *)
Definition mapped (keys : Z) (notes : list Note.t) (dest : list Z) : Prop :=
  Forall2 (fun n d => map_column_x_to_Vectra_x (Note.x n) keys 512 = Ok d)
          notes dest.

Definition time_is (t : Z) (n : Note.t) : bool := (Note.time n =? t)%Z.

(** ** Agreement of the rounding with the Standard Library's IEEE 754 *)

Definition of_spec_float (f : spec_float) : float :=
  match f with
  | S754_zero _ => Fin 0
  | S754_infinity s => Inf s
  | S754_nan => NaN
  | S754_finite s m e =>
      Fin ((if s then - inject_Z (Zpos m) else inject_Z (Zpos m)) * bpow e)
  end.

Definition float_eqb (a b : float) : bool :=
  match a, b with
  | Fin p, Fin q => Qeq_bool p q
  | Inf s, Inf t => Bool.eqb s t
  | NaN, NaN => true
  | _, _ => false
  end.

Definition binary64_of_Z (x : Z) : spec_float :=
  binary_normalize 53 1024 x 0 false.

Definition agrees_with_binary64 (p : Z * Z) : bool :=
  let (a, b) := p in
  let fa := round (inject_Z a) in
  let fb := round (inject_Z b) in
  let sa := binary64_of_Z a in
  let sb := binary64_of_Z b in
  float_eqb (of_spec_float sa) fa
  && float_eqb (of_spec_float (SFdiv 53 1024 sa sb)) (div fa fb)
  && float_eqb (of_spec_float (SFmul 53 1024 sa (SFdiv 53 1024 sa sb)))
               (mul fa (div fa fb))
  && float_eqb (of_spec_float (SFadd 53 1024 (SFdiv 53 1024 sb sa)
                                             (SFdiv 53 1024 sa sb)))
               (add (div fb fa) (div fa fb)).

(** ** Constants and predicates of the proofs *)

(** The relative rounding error [2^-53], and [2^-100], which bounds the
    absolute error [2^-1075] of the subnormal range. *)
Definition eps : Q := 1 # 9007199254740992.
Definition eta : Q := 1 # 1267650600228229401496703205376.

(** Bounds of the coordinates, of their quotients by a column width, and
    the least column width, for at most [2^49] keys. *)
Definition xmax : Q := inject_Z (2 ^ 900).
Definition qmax : Q := inject_Z (2 ^ 940).
Definition wmin : Q := 1 # 1099511627776.

(** What the reader guarantees of an end time. *)
Definition end_time_ok (n : Note.t) : Prop :=
  forall e, Note.end_time n = Some e ->
            (0 <= e)%Z /\ Z.land (Note.type n) 128 <> 0%Z.

Definition time_le (a b : Note.t) : Prop := (Note.time a <= Note.time b)%Z.

Definition agreement_samples : list (Z * Z) :=
  [ (512, 3); (512, 7); (1, 10); (300, 5); (2 ^ 60 - 1, 3);
    (2 ^ 70 + 12345, 2 ^ 60 - 1); (-511, 6); (123456789, -987654321);
    (1, 2 ^ 1074); (3, 2 ^ 1075); (1, 2 ^ 1080); (2 ^ 1023, 1);
    (2 ^ 1024 - 2 ^ 970, 1); (2 ^ 1024 - 2 ^ 970 - 1, 1); (2 ^ 1024, 7);
    (5, 2 ^ 1000 + 7); (2 ^ 53 + 1, 3); (10 ^ 30, 10 ^ 20 + 1) ]%Z.

Ltac step_bind H name :=
  match type of H with
  | bind ?r _ = Ok _ =>
      let E := fresh "E" name in
      destruct r as [name|] eqn:E; cbn [bind] in H; [|discriminate H]
  end.

(** ** Further predicates of the proofs *)

(** No character of [s] is a line boundary. *)
Fixpoint no_linebreak (s : string) : bool :=
  match s with
  | EmptyString => true
  | String c s' => negb (PyStr.is_linebreak c) && no_linebreak s'
  end.


(** The centre of the column of [x] in exact integer arithmetic: the column
    is [floor(x * keys / 512)] and its centre
    [floor((2 * column + 1) * 256 / keys)]. *)
Definition exact_center (keys x : Z) : Z :=
  ((2 * (x * keys / 512) + 1) * 256 / keys)%Z.

(** A carriage return followed by a line feed. *)
Definition crlf : string := String "013" nl.


Local Close Scope string_scope.

(** * Properties of the rounding *)

Lemma bpow_pos e : (0 < bpow e)%Q.
Proof. apply Qpower_0_lt; reflexivity. Qed.

Lemma bpow_le e1 e2 : e1 <= e2 -> (bpow e1 <= bpow e2)%Q.
Proof. intros H; apply Qpower_le_compat_l; [exact H | discriminate]. Qed.

Lemma bpow_lt e1 e2 : e1 < e2 -> (bpow e1 < bpow e2)%Q.
Proof. intros H; apply Qpower_lt_compat_l; [exact H | reflexivity]. Qed.

Lemma bpow_plus e1 e2 : (bpow (e1 + e2) == bpow e1 * bpow e2)%Q.
Proof. apply Qpower_plus; discriminate. Qed.

Lemma bpow_Z e : 0 <= e -> (inject_Z (2 ^ e) == bpow e)%Q.
Proof. intros H; apply (Zpower_Qpower 2 e H). Qed.

Lemma bpow_succ e : (bpow (e + 1) == 2 * bpow e)%Q.
Proof. rewrite bpow_plus. unfold bpow at 2. simpl. ring. Qed.

Lemma Qlog2_spec q : (0 < q)%Q -> (bpow (Qlog2 q) <= q /\ q < bpow (Qlog2 q + 1))%Q.
Proof.
  intros Hq. destruct q as [n d].
  assert (Hn : 0 < n) by (unfold Qlt in Hq; simpl in Hq; lia).
  destruct (Z.log2_spec n Hn) as [Hn1 Hn2].
  destruct (Z.log2_spec (Zpos d) (Pos2Z.is_pos d)) as [Hd1 Hd2].
  pose proof (Z.log2_nonneg n) as Hln. pose proof (Z.log2_nonneg (Zpos d)) as Hld.
  set (ln := Z.log2 n) in *. set (ld := Z.log2 (Zpos d)) in *.
  assert (Qn1 : (bpow ln <= inject_Z n)%Q)
    by (rewrite <- bpow_Z by lia; rewrite <- Zle_Qle; lia).
  assert (Qn2 : (inject_Z n < bpow (ln + 1))%Q)
    by (rewrite <- bpow_Z by lia; rewrite <- Zlt_Qlt; lia).
  assert (Qd1 : (bpow ld <= inject_Z (Zpos d))%Q)
    by (rewrite <- bpow_Z by lia; rewrite <- Zle_Qle; lia).
  assert (Qd2 : (inject_Z (Zpos d) < bpow (ld + 1))%Q)
    by (rewrite <- bpow_Z by lia; rewrite <- Zlt_Qlt; lia).
  assert (Hdpos : (0 < inject_Z (Zpos d))%Q) by (rewrite <- (Zlt_Qlt 0); lia).
  assert (Hqd : (n # d == inject_Z n / inject_Z (Zpos d))%Q) by apply Qmake_Qdiv.
  unfold Qlog2. cbn [Qnum Qden]. fold ln ld.
  destruct (Qle_bool (bpow (ln - ld)) (n # d)) eqn:Hb.
  - apply Qle_bool_iff in Hb. split; [exact Hb|].
    rewrite Hqd. apply Qlt_shift_div_r; [exact Hdpos|].
    apply Qlt_le_trans with (1 := Qn2).
    replace (ln + 1) with ((ln - ld + 1) + ld) by ring.
    rewrite bpow_plus. apply Qmult_le_l; [apply bpow_pos | exact Qd1].
  - assert (Hlt : (n # d < bpow (ln - ld))%Q).
    { apply Qnot_le_lt. intros H. apply Qle_bool_iff in H. congruence. }
    split.
    + rewrite Hqd. apply Qle_shift_div_l; [exact Hdpos|].
      apply Qle_trans with (2 := Qn1).
      replace ln with ((ln - ld - 1) + (ld + 1)) at 2 by ring.
      rewrite bpow_plus. apply Qmult_le_l; [apply bpow_pos | apply Qlt_le_weak, Qd2].
    + replace (ln - ld - 1 + 1) with (ln - ld) by ring. exact Hlt.
Qed.

Lemma Qlog2_mono q1 q2 : (0 < q1)%Q -> (q1 <= q2)%Q -> Qlog2 q1 <= Qlog2 q2.
Proof.
  intros H1 H12.
  assert (H2 : (0 < q2)%Q) by lra.
  destruct (Qlog2_spec q1 H1) as [A1 _], (Qlog2_spec q2 H2) as [_ B2].
  destruct (Z_le_gt_dec (Qlog2 q1) (Qlog2 q2)) as [|Hgt]; [assumption|].
  exfalso. assert (Hle : (bpow (Qlog2 q2 + 1) <= bpow (Qlog2 q1))%Q) by (apply bpow_le; lia).
  lra.
Qed.

Lemma Qcompare_cases x y :
  ((x ?= y)%Q = Lt /\ (x < y)%Q) \/ ((x ?= y)%Q = Eq /\ (x == y)%Q) \/
  ((x ?= y)%Q = Gt /\ (y < x)%Q).
Proof.
  destruct (x ?= y)%Q eqn:E.
  - right; left; split; [reflexivity | apply Qeq_alt; exact E].
  - left; split; [reflexivity | apply Qlt_alt; exact E].
  - right; right; split; [reflexivity | apply Qgt_alt; exact E].
Qed.

Lemma Qfloor_bounds q :
  (inject_Z (Qfloor q) <= q /\ q < inject_Z (Qfloor q) + 1)%Q.
Proof.
  split; [apply Qfloor_le|].
  pose proof (Qlt_floor q) as H. rewrite inject_Z_plus in H. exact H.
Qed.

Lemma rne_cases q :
  rne q = Qfloor q \/ rne q = Qfloor q + 1.
Proof.
  unfold rne. destruct (q - inject_Z (Qfloor q) ?= 1 # 2)%Q; auto.
  destruct (Z.even (Qfloor q)); auto.
Qed.

Lemma rne_error q :
  (inject_Z (rne q) - (1 # 2) <= q /\ q <= inject_Z (rne q) + (1 # 2))%Q.
Proof.
  destruct (Qfloor_bounds q) as [Hl Hu].
  unfold rne.
  destruct (Qcompare_cases (q - inject_Z (Qfloor q)) (1 # 2))
    as [[E H] | [[E H] | [E H]]]; rewrite E.
  - lra.
  - pose proof (inject_Z_plus (Qfloor q) 1) as Hs. change (inject_Z 1) with 1%Q in Hs.
    destruct (Z.even (Qfloor q)); rewrite ?Hs; lra.
  - pose proof (inject_Z_plus (Qfloor q) 1) as Hs. change (inject_Z 1) with 1%Q in Hs.
    rewrite Hs; lra.
Qed.

Lemma rne_mono q1 q2 : (q1 <= q2)%Q -> rne q1 <= rne q2.
Proof.
  intros H12.
  pose proof (Qfloor_resp_le _ _ H12) as Hf.
  destruct (Z_le_lt_eq_dec _ _ Hf) as [Hlt | Heq].
  - destruct (rne_cases q1) as [-> | ->].
    + destruct (rne_cases q2) as [-> | ->]; lia.
    + destruct (rne_cases q2) as [-> | ->]; lia.
  - unfold rne. rewrite <- Heq.
    destruct (Qcompare_cases (q1 - inject_Z (Qfloor q1)) (1 # 2))
      as [[E1 H1] | [[E1 H1] | [E1 H1]]]; rewrite E1;
    destruct (Qcompare_cases (q2 - inject_Z (Qfloor q1)) (1 # 2))
      as [[E2 H2] | [[E2 H2] | [E2 H2]]]; rewrite E2;
    try destruct (Z.even (Qfloor q1)); try lia; exfalso; lra.
Qed.

Lemma rne_proper q1 q2 : (q1 == q2)%Q -> rne q1 = rne q2.
Proof.
  intros H. apply Z.le_antisymm; apply rne_mono; rewrite H; apply Qle_refl.
Qed.

Lemma rne_Z z : rne (inject_Z z) = z.
Proof.
  unfold rne. rewrite Qfloor_Z.
  destruct (Qcompare_cases (inject_Z z - inject_Z z) (1 # 2))
    as [[E H] | [[E H] | [E H]]]; rewrite E; try reflexivity; exfalso; lra.
Qed.

Lemma rne_le_Z q z : (q <= inject_Z z)%Q -> rne q <= z.
Proof. intros H. rewrite <- (rne_Z z). apply rne_mono, H. Qed.

Lemma rne_ge_Z q z : (inject_Z z <= q)%Q -> z <= rne q.
Proof. intros H. rewrite <- (rne_Z z) at 1. apply rne_mono, H. Qed.

Lemma ulp_exp_mono q1 q2 : (0 < q1)%Q -> (q1 <= q2)%Q -> ulp_exp q1 <= ulp_exp q2.
Proof.
  intros H1 H12. unfold ulp_exp.
  pose proof (Qlog2_mono q1 q2 H1 H12). lia.
Qed.

Lemma Qdiv_bpow q e : (q / bpow e == q * bpow (- e))%Q.
Proof.
  unfold Qdiv. apply Qmult_comp; [reflexivity|].
  unfold bpow. rewrite Qpower_opp. reflexivity.
Qed.

Lemma bpow_cancel e : (bpow (- e) * bpow e == 1)%Q.
Proof.
  rewrite <- bpow_plus. replace (- e + e) with 0 by ring. reflexivity.
Qed.

Lemma round_pos_nonneg q : (0 < q)%Q -> (0 <= round_pos q)%Q.
Proof.
  intros Hq. unfold round_pos.
  apply Qmult_le_0_compat; [|apply Qlt_le_weak, bpow_pos].
  rewrite <- (Zle_Qle 0). apply rne_ge_Z.
  apply Qle_shift_div_l; [apply bpow_pos|].
  change (inject_Z 0) with 0%Q. rewrite Qmult_0_l. apply Qlt_le_weak, Hq.
Qed.

(** A power of two that is a multiple of the unit in the last place
    bounds the rounding of everything on its side. *)
Lemma round_pos_le_bpow q e :
  (0 < q)%Q -> (q <= bpow e)%Q -> ulp_exp q <= e -> (round_pos q <= bpow e)%Q.
Proof.
  intros Hq Hle Hex. unfold round_pos.
  set (ex := ulp_exp q) in *.
  assert (Hz : rne (q / bpow ex) <= 2 ^ (e - ex)).
  { apply rne_le_Z. rewrite bpow_Z by lia.
    apply Qle_shift_div_r; [apply bpow_pos|].
    rewrite <- bpow_plus. replace (e - ex + ex) with e by ring. exact Hle. }
  apply Qle_trans with (inject_Z (2 ^ (e - ex)) * bpow ex)%Q.
  - apply Qmult_le_compat_r; [rewrite <- Zle_Qle; exact Hz | apply Qlt_le_weak, bpow_pos].
  - rewrite bpow_Z by lia. rewrite <- bpow_plus.
    replace (e - ex + ex) with e by ring. apply Qle_refl.
Qed.

Lemma round_pos_ge_bpow q e :
  (0 < q)%Q -> (bpow e <= q)%Q -> ulp_exp q <= e -> (bpow e <= round_pos q)%Q.
Proof.
  intros Hq Hle Hex. unfold round_pos.
  set (ex := ulp_exp q) in *.
  assert (Hz : 2 ^ (e - ex) <= rne (q / bpow ex)).
  { apply rne_ge_Z. rewrite bpow_Z by lia.
    apply Qle_shift_div_l; [apply bpow_pos|].
    rewrite <- bpow_plus. replace (e - ex + ex) with e by ring. exact Hle. }
  apply Qle_trans with (inject_Z (2 ^ (e - ex)) * bpow ex)%Q.
  - rewrite bpow_Z by lia. rewrite <- bpow_plus.
    replace (e - ex + ex) with e by ring. apply Qle_refl.
  - apply Qmult_le_compat_r; [rewrite <- Zle_Qle; exact Hz | apply Qlt_le_weak, bpow_pos].
Qed.

Lemma round_pos_mono q1 q2 :
  (0 < q1)%Q -> (q1 <= q2)%Q -> (round_pos q1 <= round_pos q2)%Q.
Proof.
  intros H1 H12.
  assert (H2 : (0 < q2)%Q) by lra.
  pose proof (ulp_exp_mono q1 q2 H1 H12) as Hex.
  destruct (Z_le_lt_eq_dec _ _ Hex) as [Hlt | Heq].
  - (* different binades: the power of two between them separates *)
    set (e := Qlog2 q2).
    assert (He2 : ulp_exp q2 = e - 52) by (unfold ulp_exp in *; fold e in Hlt |- *; lia).
    assert (He1 : Qlog2 q1 < e) by (unfold ulp_exp in *; fold e in Hlt; lia).
    destruct (Qlog2_spec q1 H1) as [_ B1], (Qlog2_spec q2 H2) as [A2 _].
    fold e in A2.
    assert (Hb : (bpow (Qlog2 q1 + 1) <= bpow e)%Q) by (apply bpow_le; lia).
    apply Qle_trans with (bpow e).
    + apply round_pos_le_bpow; [exact H1 | lra | unfold ulp_exp in *; lia].
    + apply round_pos_ge_bpow; [exact H2 | exact A2 | lia].
  - unfold round_pos. rewrite <- Heq.
    apply Qmult_le_compat_r; [|apply Qlt_le_weak, bpow_pos].
    rewrite <- Zle_Qle. apply rne_mono.
    apply Qmult_le_compat_r; [exact H12|].
    apply Qlt_le_weak, Qinv_lt_0_compat, bpow_pos.
Qed.

Lemma round_zero q : (q == 0)%Q -> round q = Fin 0.
Proof.
  intros H. unfold round.
  destruct (Qcompare_cases q 0) as [[E ?] | [[E ?] | [E ?]]]; rewrite E;
    try reflexivity; exfalso; lra.
Qed.

Lemma round_of_pos q :
  (0 < q)%Q ->
  round q = if Qle_bool (bpow 1024) (round_pos q) then Inf false
            else Fin (round_pos q).
Proof.
  intros H. unfold round.
  destruct (Qcompare_cases q 0) as [[E ?] | [[E ?] | [E ?]]]; rewrite E;
    try reflexivity; exfalso; lra.
Qed.

Lemma round_of_neg q :
  (q < 0)%Q ->
  round q = if Qle_bool (bpow 1024) (round_pos (- q)) then Inf true
            else Fin (- round_pos (- q)).
Proof.
  intros H. unfold round.
  destruct (Qcompare_cases q 0) as [[E ?] | [[E ?] | [E ?]]]; rewrite E;
    try reflexivity; exfalso; lra.
Qed.

Lemma Qle_bool_false x y : Qle_bool x y = false -> (y < x)%Q.
Proof.
  intros H. apply Qnot_le_lt. intros H'. apply Qle_bool_iff in H'. congruence.
Qed.

Lemma round_cases q : (exists r, round q = Fin r) \/ (exists s, round q = Inf s).
Proof.
  unfold round. destruct (q ?= 0)%Q; [left; eauto | |];
    destruct (Qle_bool _ _); eauto.
Qed.

Lemma round_pos_view q :
  (0 < q)%Q ->
  (round q = Fin (round_pos q) /\ (round_pos q < bpow 1024)%Q) \/
  (round q = Inf false /\ (bpow 1024 <= round_pos q)%Q).
Proof.
  intros H. rewrite (round_of_pos q H).
  destruct (Qle_bool (bpow 1024) (round_pos q)) eqn:E.
  - right. split; [reflexivity | apply Qle_bool_iff, E].
  - left. split; [reflexivity | apply Qle_bool_false, E].
Qed.

Lemma round_neg_view q :
  (q < 0)%Q ->
  (round q = Fin (- round_pos (- q)) /\ (round_pos (- q) < bpow 1024)%Q) \/
  (round q = Inf true /\ (bpow 1024 <= round_pos (- q))%Q).
Proof.
  intros H. rewrite (round_of_neg q H).
  destruct (Qle_bool (bpow 1024) (round_pos (- q))) eqn:E.
  - right. split; [reflexivity | apply Qle_bool_iff, E].
  - left. split; [reflexivity | apply Qle_bool_false, E].
Qed.

Lemma round_mono q1 q2 : (q1 <= q2)%Q -> fle (round q1) (round q2).
Proof.
  intros H12.
  destruct (Q_dec q1 0) as [[N1 | P1] | Z1], (Q_dec q2 0) as [[N2 | P2] | Z2];
    try (exfalso; lra).
  - assert (Hm : (round_pos (- q2) <= round_pos (- q1))%Q)
      by (apply round_pos_mono; lra).
    destruct (round_neg_view q1 N1) as [[-> A] | [-> A]],
             (round_neg_view q2 N2) as [[-> B] | [-> B]]; unfold fle; try exact I; lra.
  - assert (P1 : (0 < - q1)%Q) by lra.
    pose proof (round_pos_nonneg (- q1) P1). pose proof (round_pos_nonneg q2 P2).
    destruct (round_neg_view q1 N1) as [[-> A] | [-> A]],
             (round_pos_view q2 P2) as [[-> B] | [-> B]]; unfold fle; try exact I; lra.
  - assert (P1 : (0 < - q1)%Q) by lra.
    pose proof (round_pos_nonneg (- q1) P1). rewrite (round_zero q2 Z2).
    destruct (round_neg_view q1 N1) as [[-> A] | [-> A]]; unfold fle; try exact I; lra.
  - assert (Hm : (round_pos q1 <= round_pos q2)%Q) by (apply round_pos_mono; lra).
    destruct (round_pos_view q1 P1) as [[-> A] | [-> A]],
             (round_pos_view q2 P2) as [[-> B] | [-> B]]; unfold fle; try exact I; lra.
  - pose proof (round_pos_nonneg q2 P2). rewrite (round_zero q1 Z1).
    destruct (round_pos_view q2 P2) as [[-> B] | [-> B]]; unfold fle; try exact I; lra.
  - rewrite (round_zero q1 Z1), (round_zero q2 Z2). unfold fle. lra.
Qed.

Lemma round_proper q1 q2 : (q1 == q2)%Q -> fle (round q1) (round q2).
Proof. intros H. apply round_mono. rewrite H. apply Qle_refl. Qed.

Lemma Qtrunc_mono q1 q2 : (q1 <= q2)%Q -> Qtrunc q1 <= Qtrunc q2.
Proof.
  intros H. unfold Qtrunc.
  destruct (Qle_bool 0 q1) eqn:E1, (Qle_bool 0 q2) eqn:E2.
  - apply Qfloor_resp_le, H.
  - apply Qle_bool_iff in E1. apply Qle_bool_false in E2. exfalso; lra.
  - apply Qle_bool_false in E1. apply Qle_bool_iff in E2.
    apply Z.le_trans with 0.
    + assert (A : (q1 <= 0)%Q) by lra.
      apply Qceiling_resp_le in A. exact A.
    + apply Qfloor_resp_le in E2. exact E2.
  - apply Qceiling_resp_le, H.
Qed.

Lemma Qtrunc_nonneg q : (0 <= q)%Q -> 0 <= Qtrunc q.
Proof. intros H. change 0 with (Qtrunc 0). apply Qtrunc_mono, H. Qed.

(** ** The rounding error *)

Lemma round_pos_upper q :
  (0 < q)%Q -> (round_pos q <= q + bpow (ulp_exp q - 1))%Q.
Proof.
  intros Hq. unfold round_pos. set (ex := ulp_exp q).
  destruct (rne_error (q / bpow ex)) as [Hlo _].
  pose proof (bpow_pos ex) as Hb.
  assert (Hh : (bpow (ex - 1) == (1 # 2) * bpow ex)%Q).
  { pose proof (bpow_succ (ex - 1)) as Hs.
    replace (ex - 1 + 1) with ex in Hs by ring. rewrite Hs. field. }
  rewrite Hh.
  assert (Hq' : (q == q / bpow ex * bpow ex)%Q) by (field; lra).
  assert (Hm : ((inject_Z (rne (q / bpow ex)) - (1 # 2)) * bpow ex
                <= q / bpow ex * bpow ex)%Q)
    by (apply Qmult_le_compat_r; [exact Hlo | lra]).
  rewrite <- Hq' in Hm. lra.
Qed.

Lemma half_ulp_bound q :
  (0 < q)%Q -> (bpow (ulp_exp q - 1) <= q * bpow (-53) + bpow (-1075))%Q.
Proof.
  intros Hq. destruct (Qlog2_spec q Hq) as [Hlo _].
  pose proof (bpow_pos (-53)). pose proof (bpow_pos (-1075)).
  unfold ulp_exp. destruct (Z.max_spec (Qlog2 q - 52) (-1074)) as [[_ ->] | [_ ->]].
  - change (-1074 - 1) with (-1075).
    assert (0 <= q * bpow (-53))%Q by (apply Qmult_le_0_compat; lra). lra.
  - replace (Qlog2 q - 52 - 1) with (Qlog2 q + -53) by ring.
    rewrite bpow_plus.
    assert (bpow (Qlog2 q) * bpow (-53) <= q * bpow (-53))%Q
      by (apply Qmult_le_compat_r; lra).
    lra.
Qed.


Lemma eps_eq : (bpow (-53) == eps)%Q.
Proof. reflexivity. Qed.

Lemma eta_ge : (bpow (-1075) <= eta)%Q.
Proof.
  apply Qle_trans with (bpow (-100)); [apply bpow_le; lia|].
  apply Qle_lteq. right. reflexivity.
Qed.

(** The rounding of a non-negative number exceeds it by a relative error of
    at most [2^-53], up to the absolute error of the subnormal range. *)
Lemma round_upper q r :
  (0 <= q)%Q -> round q = Fin r -> (0 <= r /\ r <= q * (1 + eps) + eta)%Q.
Proof.
  intros Hq Hr.
  assert (Heta : (0 < eta)%Q) by reflexivity.
  assert (Heps : (0 < eps)%Q) by reflexivity.
  destruct (Qle_lt_or_eq _ _ Hq) as [Hpos | Hz].
  - destruct (round_pos_view q Hpos) as [[E _] | [E _]]; rewrite E in Hr; [|discriminate].
    inversion Hr; subst r.
    pose proof (round_pos_nonneg q Hpos).
    pose proof (round_pos_upper q Hpos). pose proof (half_ulp_bound q Hpos) as Hb.
    rewrite eps_eq in Hb. pose proof eta_ge. split; [assumption | lra].
  - rewrite (round_zero q) in Hr by (symmetry; exact Hz).
    inversion Hr; subst r. rewrite <- Hz. split; lra.
Qed.

(** Rounding preserves an upper bound that is itself a binary64 number. *)
Lemma round_bounded q B B' :
  (0 <= q)%Q -> (q <= B)%Q -> round B = Fin B' ->
  exists r, round q = Fin r /\ (0 <= r <= B')%Q.
Proof.
  intros Hq HB EB.
  pose proof (round_mono _ _ Hq) as Hlo. rewrite (round_zero 0) in Hlo by reflexivity.
  pose proof (round_mono _ _ HB) as Hhi. rewrite EB in Hhi.
  destruct (round q) as [r | [|] |]; unfold fle in Hlo, Hhi; try contradiction.
  exists r. split; [reflexivity | split; assumption].
Qed.

(** * Properties of the coordinate mapper *)

(** ** Monotonicity of the mapper's steps *)

Lemma float_of_int_fin x a : float_of_int x = Ok a -> a = round (inject_Z x) /\ exists q, a = Fin q.
Proof.
  unfold float_of_int. destruct (round_cases (inject_Z x)) as [[r E] | [s E]];
    rewrite E; intros H; inversion H; subst; eauto.
Qed.

Lemma float_of_int_mono x1 x2 q1 q2 :
  x1 <= x2 -> float_of_int x1 = Ok (Fin q1) -> float_of_int x2 = Ok (Fin q2) ->
  (q1 <= q2)%Q.
Proof.
  intros H H1 H2.
  apply float_of_int_fin in H1, H2. destruct H1 as [H1 _], H2 as [H2 _].
  assert (Hq : (inject_Z x1 <= inject_Z x2)%Q) by (rewrite <- Zle_Qle; exact H).
  pose proof (round_mono _ _ Hq) as Hm. rewrite <- H1, <- H2 in Hm. exact Hm.
Qed.

Lemma int_truediv_pos a b w :
  0 <= a -> 0 < b -> int_truediv a b = Ok w -> exists q, w = Fin q /\ (0 <= q)%Q.
Proof.
  intros Ha Hb. unfold int_truediv.
  destruct (Z.eqb_spec b 0) as [|_]; [lia|].
  assert (Hq : (0 <= inject_Z a / inject_Z b)%Q).
  { apply Qle_shift_div_l; [rewrite <- (Zlt_Qlt 0); exact Hb|].
    rewrite Qmult_0_l. rewrite <- (Zle_Qle 0). exact Ha. }
  pose proof (round_mono _ _ Hq) as Hm. rewrite (round_zero 0) in Hm by reflexivity.
  destruct (round (inject_Z a / inject_Z b)) as [q | s |]; intros H; inversion H; subst.
  - exists q; split; [reflexivity | exact Hm].
  - destruct Hm.
Qed.

Lemma clamp_col_mono c1 c2 keys : c1 <= c2 -> clamp_col c1 keys <= clamp_col c2 keys.
Proof.
  intros H. unfold clamp_col.
  destruct (Z.ltb_spec c1 0), (Z.ltb_spec c2 0);
    repeat match goal with |- context [?a >=? ?b] => destruct (Z.geb_spec a b) end; lia.
Qed.

Lemma clamp_col_range c keys : 1 <= keys -> 0 <= clamp_col c keys <= keys - 1.
Proof.
  intros H. unfold clamp_col.
  destruct (Z.ltb_spec c 0);
    repeat match goal with |- context [?a >=? ?b] => destruct (Z.geb_spec a b) end; lia.
Qed.

Lemma is_zero_false q : is_zero (Fin q) = false -> ~ (q == 0)%Q.
Proof. unfold is_zero. apply Qeq_bool_neq. Qed.

Lemma column_index_mono keys W x1 x2 c1 c2 :
  0 <= W -> 0 < keys -> x1 <= x2 ->
  column_index x1 keys W = Ok c1 -> column_index x2 keys W = Ok c2 ->
  c1 <= c2.
Proof.
  intros HW Hk Hx H1 H2. unfold column_index in H1, H2.
  destruct (int_truediv W keys) as [w|] eqn:Ew; cbn [bind] in H1, H2; [|discriminate].
  destruct (int_truediv_pos _ _ _ HW Hk Ew) as (wq & -> & Hwq).
  unfold int_div_float in H1, H2.
  destruct (float_of_int x1) as [a1|] eqn:Ea1; cbn [bind] in H1; [|discriminate].
  destruct (float_of_int x2) as [a2|] eqn:Ea2; cbn [bind] in H2; [|discriminate].
  destruct (float_of_int_fin _ _ Ea1) as (_ & p1 & ->).
  destruct (float_of_int_fin _ _ Ea2) as (_ & p2 & ->).
  pose proof (float_of_int_mono _ _ _ _ Hx Ea1 Ea2) as Hp.
  unfold float_truediv in H1, H2.
  destruct (is_zero (Fin wq)) eqn:Ez; cbn [bind] in H1, H2; [discriminate|].
  apply is_zero_false in Ez.
  assert (Hpos : (0 < wq)%Q) by (destruct (Qle_lt_or_eq _ _ Hwq) as [|e]; [assumption | symmetry in e; contradiction]).
  cbn [div] in H1, H2.
  assert (Hm : fle (round (p1 / wq)) (round (p2 / wq))).
  { apply round_mono. unfold Qdiv. apply Qmult_le_compat_r; [exact Hp|].
    apply Qlt_le_weak, Qinv_lt_0_compat, Hpos. }
  destruct (round (p1 / wq)) as [r1|s1|], (round (p2 / wq)) as [r2|s2|];
    cbn [int_of_float] in H1, H2; try discriminate.
  inversion H1; inversion H2; subst. apply Qtrunc_mono, Hm.
Qed.

Lemma column_center_mono keys W c1 c2 v1 v2 :
  0 <= W -> 0 < keys -> c1 <= c2 ->
  column_center c1 keys W = Ok v1 -> column_center c2 keys W = Ok v2 ->
  v1 <= v2.
Proof.
  intros HW Hk Hc H1 H2. unfold column_center in H1, H2.
  destruct (int_truediv W keys) as [w|] eqn:Ew; cbn [bind] in H1, H2; [|discriminate].
  destruct (int_truediv_pos _ _ _ HW Hk Ew) as (wq & -> & Hwq).
  unfold int_mul_float in H1, H2.
  destruct (float_of_int c1) as [a1|] eqn:Ea1; cbn [bind] in H1; [|discriminate].
  destruct (float_of_int c2) as [a2|] eqn:Ea2; cbn [bind] in H2; [|discriminate].
  destruct (float_of_int_fin _ _ Ea1) as (_ & p1 & ->).
  destruct (float_of_int_fin _ _ Ea2) as (_ & p2 & ->).
  pose proof (float_of_int_mono _ _ _ _ Hc Ea1 Ea2) as Hp.
  destruct (float_div_int (Fin wq) 2) as [h|] eqn:Eh; cbn [bind] in H1, H2; [|discriminate].
  cbn [mul] in H1, H2.
  assert (Hm : fle (round (p1 * wq)) (round (p2 * wq))).
  { apply round_mono. apply Qmult_le_compat_r; assumption. }
  destruct (round (p1 * wq)) as [l1|s1|], (round (p2 * wq)) as [l2|s2|], h as [hq|sh|];
    cbn [add int_of_float] in H1, H2; try discriminate;
    try (destruct (Bool.eqb _ _); discriminate).
  unfold fle in Hm.
  assert (Hs : fle (round (l1 + hq)) (round (l2 + hq))) by (apply round_mono; lra).
  destruct (round (l1 + hq)) as [r1|t1|], (round (l2 + hq)) as [r2|t2|];
    cbn [int_of_float] in H1, H2; try discriminate.
  inversion H1; inversion H2; subst. apply Qtrunc_mono, Hs.
Qed.

(** C5.  For a fixed number of keys, at least 1, and a playfield of width
    512, the coordinate mapper is monotonic non-decreasing in [x]: whenever
    [x1 <= x2] and both calls return, [map(x1, keys) <= map(x2, keys)]. *)
Theorem mapper_monotone keys x1 x2 v1 v2 :
  1 <= keys -> x1 <= x2 ->
  map_column_x_to_Vectra_x x1 keys 512 = Ok v1 ->
  map_column_x_to_Vectra_x x2 keys 512 = Ok v2 ->
  v1 <= v2.
Proof.
  intros Hk Hx H1 H2. unfold map_column_x_to_Vectra_x in H1, H2.
  step_bind H1 c1. step_bind H2 c2.
  assert (Hc : c1 <= c2) by (eapply (column_index_mono keys 512 x1 x2); eauto; lia).
  eapply (column_center_mono keys 512); [lia | lia | | exact H1 | exact H2].
  apply clamp_col_mono, Hc.
Qed.

Lemma mapper_monotone_witness :
  map_column_x_to_Vectra_x 100 4 512 = Ok 64 /\
  map_column_x_to_Vectra_x 300 4 512 = Ok 320 /\ 64 <= 320.
Proof.
  assert (H1 : map_column_x_to_Vectra_x 100 4 512 = Ok 64) by (vm_compute; reflexivity).
  assert (H2 : map_column_x_to_Vectra_x 300 4 512 = Ok 320) by (vm_compute; reflexivity).
  split; [exact H1 | split; [exact H2|]].
  apply (mapper_monotone 4 100 300 64 320); [lia | lia | exact H1 | exact H2].
Defined.

Lemma round_512 : exists r, round 512 = Fin r /\ (r == 512)%Q.
Proof. eexists. split; [vm_compute; reflexivity | reflexivity]. Qed.

Lemma round_1024 : exists r, round 1024 = Fin r /\ (r == 1024)%Q.
Proof. eexists. split; [vm_compute; reflexivity | reflexivity]. Qed.

Lemma round_2p49 : exists r, round 562949953421312 = Fin r /\ (r == 562949953421312)%Q.
Proof. eexists. split; [vm_compute; reflexivity | reflexivity]. Qed.

Lemma float_of_int_2 : exists two, float_of_int 2 = Ok (Fin two) /\ (two == 2)%Q.
Proof. eexists. split; [vm_compute; reflexivity | reflexivity]. Qed.

Lemma column_center_range keys c :
  1 <= keys <= 2 ^ 49 -> 0 <= c <= keys - 1 ->
  exists v, column_center c keys 512 = Ok v /\ 0 <= v < 512.
Proof.
  intros Hk Hc.
  set (t := (/ inject_Z keys)%Q).
  set (cq := inject_Z c).
  assert (Hkq : (1 <= inject_Z keys <= 562949953421312)%Q)
    by (split; [rewrite <- (Zle_Qle 1) | rewrite <- (Zle_Qle _ (2 ^ 49))]; lia).
  assert (Hkt : (inject_Z keys * t == 1)%Q) by (apply Qmult_inv_r; lra).
  assert (Ht0 : (0 < t)%Q) by (apply Qinv_lt_0_compat; lra).
  assert (Ht1 : (t <= 1)%Q).
  { apply Qmult_le_l with (z := inject_Z keys); [lra|]. rewrite Hkt. lra. }
  assert (Ht2 : ((1 # 562949953421312) <= t)%Q).
  { apply Qmult_le_l with (z := inject_Z keys); [lra|]. rewrite Hkt.
    apply Qle_trans with (562949953421312 * (1 # 562949953421312))%Q.
    - apply Qmult_le_compat_r; [lra | discriminate].
    - apply Qle_lteq; right; reflexivity. }
  assert (Hcq : (0 <= cq <= 562949953421312)%Q)
    by (unfold cq; split; [rewrite <- (Zle_Qle 0) | rewrite <- (Zle_Qle _ (2 ^ 49))]; lia).
  assert (Hct : (cq * t <= 1 - t)%Q).
  { assert (Hle : (cq <= inject_Z keys - 1)%Q).
    { unfold cq.
      change (inject_Z keys - 1)%Q with (inject_Z keys + inject_Z (-1))%Q.
      rewrite <- inject_Z_plus. rewrite <- Zle_Qle. lia. }
    apply Qle_trans with ((inject_Z keys - 1) * t)%Q.
    - apply Qmult_le_compat_r; lra.
    - apply Qle_lteq; right. transitivity (inject_Z keys * t - t)%Q; [ring | rewrite Hkt; ring]. }
  (* the column width *)
  unfold column_center, int_truediv.
  destruct (Z.eqb_spec keys 0) as [|_]; [lia|].
  assert (Hq0 : (inject_Z 512 / inject_Z keys == 512 * t)%Q) by reflexivity.
  set (q0 := (inject_Z 512 / inject_Z keys)%Q) in *.
  destruct round_512 as (r512 & E512 & V512).
  destruct (round_bounded q0 512 r512) as (wq & Ew & Hw0 & Hw1);
    [lra | lra | exact E512 |].
  assert (Hq0' : (0 <= q0)%Q) by lra.
  pose proof (round_upper _ _ Hq0' Ew) as [_ Hwu].
  rewrite Ew. cbn [bind]. unfold int_mul_float, float_of_int.
  (* the column index as a float *)
  destruct round_2p49 as (r49 & E49 & V49).
  destruct (round_bounded cq _ r49 (proj1 Hcq) (proj2 Hcq) E49) as (p & Ep & Hp0 & Hp1).
  pose proof (round_upper _ _ (proj1 Hcq) Ep) as [_ Hpu].
  fold cq. rewrite Ep. cbn [bind mul].
  (* the product *)
  assert (Hprod : (p * wq <= 512 * (1 - t) * ((1 + eps) * (1 + eps))
                            + eta * (562949953421312 * (1 + eps) + 512 * (1 + eps)) + eta * eta)%Q).
  { apply Qle_trans with ((cq * (1 + eps) + eta) * (512 * t * (1 + eps) + eta))%Q.
    - apply Qmult_le_compat_nonneg; split; assumption.
    - assert (Hx : ((cq * (1 + eps) + eta) * (512 * t * (1 + eps) + eta)
                    == 512 * (cq * t) * ((1 + eps) * (1 + eps))
                       + eta * (cq * (1 + eps) + 512 * t * (1 + eps)) + eta * eta)%Q) by ring.
      rewrite Hx. clearbody t cq q0. unfold eps, eta in *. lra. }
  assert (Hprod0 : (0 <= p * wq)%Q) by (apply Qmult_le_0_compat; assumption).
  destruct round_1024 as (r1024 & E1024 & V1024).
  destruct (round_bounded (p * wq) 1024 r1024 Hprod0) as (l & El & Hl0 & Hl1);
    [clearbody t cq q0; unfold eps, eta in *; lra | exact E1024 |].
  pose proof (round_upper _ _ Hprod0 El) as [_ Hlu].
  rewrite El.
  (* half a column *)
  unfold float_div_int.
  destruct float_of_int_2 as (two & E2 & V2). rewrite E2. cbn [bind].
  unfold float_truediv.
  assert (Ez : is_zero (Fin two) = false).
  { unfold is_zero. destruct (Qeq_bool two 0) eqn:Eb; [|reflexivity].
    apply Qeq_bool_eq in Eb. exfalso. clear - Eb V2. lra. }
  rewrite Ez. cbn [bind div].
  assert (Hd : (wq / two == wq * (1 # 2))%Q) by (rewrite V2; field).
  set (d := (wq / two)%Q) in *.
  destruct (round_bounded d 512 r512) as (h & Eh & Hh0 & Hh1);
    [lra | lra | exact E512 |].
  assert (Hd' : (0 <= d)%Q) by lra.
  pose proof (round_upper _ _ Hd' Eh) as [_ Hhu].
  rewrite Eh. cbn [add].
  (* the sum *)
  assert (Hs0 : (0 <= l + h)%Q) by lra.
  destruct (round_bounded (l + h) 1024 r1024 Hs0) as (s & Es & Hs1 & Hs2);
    [clearbody t cq q0; unfold eps, eta in *; lra | exact E1024 |].
  pose proof (round_upper _ _ Hs0 Es) as [_ Hsu].
  rewrite Es. cbn [int_of_float].
  exists (Qtrunc s). split; [reflexivity|]. split; [apply Qtrunc_nonneg, Hs1|].
  assert (Hlt : (s < 512)%Q) by (clearbody t cq q0 d; unfold eps, eta in *; lra).
  unfold Qtrunc. destruct (Qle_bool 0 s) eqn:Eb.
  - rewrite Zlt_Qlt. apply Qle_lt_trans with s; [apply Qfloor_le | exact Hlt].
  - apply Qle_bool_false in Eb. exfalso; lra.
Qed.

Lemma round_between lo hi q a b :
  (lo <= q)%Q -> (q <= hi)%Q -> round lo = Fin a -> round hi = Fin b ->
  exists r, round q = Fin r /\ (a <= r <= b)%Q.
Proof.
  intros Hlo Hhi Ea Eb.
  pose proof (round_mono _ _ Hlo) as H1. rewrite Ea in H1.
  pose proof (round_mono _ _ Hhi) as H2. rewrite Eb in H2.
  destruct (round q) as [r | [|] |]; unfold fle in H1, H2; try contradiction.
  exists r. split; [reflexivity | split; assumption].
Qed.


Lemma round_xmax : exists a b, round (- xmax) = Fin a /\ round xmax = Fin b /\
  (a == - xmax)%Q /\ (b == xmax)%Q.
Proof. do 2 eexists. split; [vm_compute; reflexivity | split; [vm_compute; reflexivity | split; reflexivity]]. Qed.

Lemma round_qmax : exists a b, round (- qmax) = Fin a /\ round qmax = Fin b.
Proof. do 2 eexists. split; vm_compute; reflexivity. Qed.

Lemma round_wmin : exists a, round wmin = Fin a /\ (a == wmin)%Q.
Proof. eexists. split; [vm_compute; reflexivity | reflexivity]. Qed.

Lemma qmax_eq : (xmax * / wmin == qmax)%Q.
Proof. reflexivity. Qed.

Lemma column_index_returns keys x :
  1 <= keys <= 2 ^ 49 -> - 2 ^ 900 <= x <= 2 ^ 900 ->
  exists c, column_index x keys 512 = Ok c.
Proof.
  intros Hk Hx.
  assert (Hkq : (1 <= inject_Z keys <= 562949953421312)%Q)
    by (split; [rewrite <- (Zle_Qle 1) | rewrite <- (Zle_Qle _ (2 ^ 49))]; lia).
  set (t := (/ inject_Z keys)%Q).
  assert (Hkt : (inject_Z keys * t == 1)%Q) by (apply Qmult_inv_r; lra).
  assert (Ht1 : (t <= 1)%Q).
  { apply Qmult_le_l with (z := inject_Z keys); [lra|]. rewrite Hkt. lra. }
  assert (Ht2 : ((1 # 562949953421312) <= t)%Q).
  { apply Qmult_le_l with (z := inject_Z keys); [lra|]. rewrite Hkt.
    apply Qle_trans with (562949953421312 * (1 # 562949953421312))%Q.
    - apply Qmult_le_compat_r; [lra | discriminate].
    - apply Qle_lteq; right; reflexivity. }
  unfold column_index, int_truediv.
  destruct (Z.eqb_spec keys 0) as [|_]; [lia|].
  assert (Hq0 : (inject_Z 512 / inject_Z keys == 512 * t)%Q) by reflexivity.
  set (q0 := (inject_Z 512 / inject_Z keys)%Q) in *.
  destruct round_512 as (r512 & E512 & V512).
  destruct round_wmin as (rmin & Emin & Vmin).
  destruct (round_between wmin 512 q0 rmin r512) as (wq & Ew & Hw0 & Hw1);
    [unfold wmin; clearbody t q0; lra | clearbody t q0; lra | exact Emin | exact E512 |].
  rewrite Ew. cbn [bind]. unfold int_div_float, float_of_int.
  (* the coordinate as a float *)
  destruct round_xmax as (xa & xb & Exa & Exb & Vxa & Vxb).
  assert (Hxq : (- xmax <= inject_Z x <= xmax)%Q).
  { unfold xmax. rewrite <- inject_Z_opp. split; rewrite <- Zle_Qle; lia. }
  destruct (round_between _ _ _ _ _ (proj1 Hxq) (proj2 Hxq) Exa Exb) as (p & Ep & Hp0 & Hp1).
  rewrite Ep. cbn [bind]. unfold float_truediv.
  assert (Hwpos : (wmin <= wq)%Q) by (rewrite <- Vmin; exact Hw0).
  assert (Hwm : (0 < wmin)%Q) by reflexivity.
  assert (Ez : is_zero (Fin wq) = false).
  { unfold is_zero. destruct (Qeq_bool wq 0) eqn:Eb; [|reflexivity].
    apply Qeq_bool_eq in Eb. exfalso. clear - Eb Hwpos Hwm. lra. }
  rewrite Ez. cbn [bind div].
  (* the quotient *)
  set (a := (/ wq)%Q).
  assert (Ha0 : (0 < a)%Q) by (apply Qinv_lt_0_compat; clear - Hwpos Hwm; lra).
  assert (Ha1 : (a <= / wmin)%Q).
  { apply Qle_shift_inv_l; [exact Hwm|].
    apply Qle_trans with (a * wq)%Q.
    - apply (proj2 (Qmult_le_l _ _ _ Ha0)), Hwpos.
    - apply Qle_lteq; right. unfold a. rewrite Qmult_comm. apply Qmult_inv_r.
      clear - Hwpos Hwm. lra. }
  assert (Hxm : (0 <= xmax)%Q) by (unfold xmax; rewrite <- (Zle_Qle 0); lia).
  assert (Hq1 : (p / wq <= qmax)%Q).
  { rewrite <- qmax_eq. unfold Qdiv. fold a.
    apply Qle_trans with (xmax * a)%Q.
    - apply Qmult_le_compat_r; [rewrite <- Vxb; exact Hp1 | lra].
    - rewrite !(Qmult_comm xmax). apply Qmult_le_compat_r; assumption. }
  assert (Hq2 : (- qmax <= p / wq)%Q).
  { rewrite <- qmax_eq. unfold Qdiv. fold a.
    apply Qle_trans with (- xmax * a)%Q.
    - assert (Hm : (xmax * a <= xmax * / wmin)%Q)
        by (rewrite !(Qmult_comm xmax); apply Qmult_le_compat_r; assumption).
      set (u := (xmax * a)%Q) in *. set (v := (xmax * / wmin)%Q) in *.
      assert (He : (- xmax * a == - u)%Q) by (unfold u; ring).
      rewrite He. clearbody u v. lra.
    - apply Qmult_le_compat_r; [rewrite <- Vxa; exact Hp0 | lra]. }
  destruct round_qmax as (qa & qb & Eqa & Eqb).
  destruct (round_between _ _ _ _ _ Hq2 Hq1 Eqa Eqb) as (r & Er & _).
  rewrite Er. cbn [int_of_float]. eexists; reflexivity.
Qed.

Lemma mapper_unfold x keys v :
  map_column_x_to_Vectra_x x keys 512 = Ok v ->
  exists c, column_index x keys 512 = Ok c /\
            column_center (clamp_col c keys) keys 512 = Ok v.
Proof.
  unfold map_column_x_to_Vectra_x. intros H.
  destruct (column_index x keys 512) as [c|] eqn:E; cbn [bind] in H; [|discriminate].
  exists c. split; [reflexivity | exact H].
Qed.

(** C4 (amended).  With a playfield of width 512 and between 1 and 2^49
    keys, every value the coordinate mapper returns lies in [0, 512); it
    does return one for every [x] of absolute value at most 2^900; and, the
    mapper being a function of its arguments, two calls with the same
    inputs give the same result. *)
Theorem mapper_range x keys :
  1 <= keys <= 2 ^ 49 ->
  (forall v, map_column_x_to_Vectra_x x keys 512 = Ok v -> 0 <= v < 512) /\
  (- 2 ^ 900 <= x <= 2 ^ 900 ->
   exists v, map_column_x_to_Vectra_x x keys 512 = Ok v /\ 0 <= v < 512) /\
  (forall r1 r2, r1 = map_column_x_to_Vectra_x x keys 512 ->
                 r2 = map_column_x_to_Vectra_x x keys 512 -> r1 = r2).
Proof.
  intros Hk.
  assert (Hin : forall v, map_column_x_to_Vectra_x x keys 512 = Ok v -> 0 <= v < 512).
  { intros v H. destruct (mapper_unfold _ _ _ H) as (c & _ & Hc).
    destruct (column_center_range keys (clamp_col c keys) Hk) as (v' & Hv' & Hr).
    - apply clamp_col_range; lia.
    - rewrite Hc in Hv'. inversion Hv'; subst. exact Hr. }
  split; [exact Hin | split].
  - intros Hx. destruct (column_index_returns keys x Hk Hx) as (c & Ec).
    destruct (column_center_range keys (clamp_col c keys) Hk) as (v & Hv & Hr).
    + apply clamp_col_range; lia.
    + exists v. split; [|exact Hr].
      unfold map_column_x_to_Vectra_x. rewrite Ec. cbn [bind]. exact Hv.
  - intros r1 r2 -> ->. reflexivity.
Qed.

Lemma mapper_range_witness :
  1 <= 4 <= 2 ^ 49 /\
  exists v, map_column_x_to_Vectra_x 300 4 512 = Ok v /\ 0 <= v < 512.
Proof.
  assert (Hk : 1 <= 4 <= 2 ^ 49) by (vm_compute; split; discriminate).
  split; [exact Hk|].
  apply (proj1 (proj2 (mapper_range 300 4 Hk))).
  vm_compute; split; discriminate.
Defined.

(** C4 as stated fails at [x = 512], [keys = 2^60]: the column width is
    [2^-51], the index [2^60] is clamped to [2^60 - 1], which rounds to
    [2^60] as a float, and the centre [2^60 * 2^-51 + 2^-52] rounds to 512. *)
Lemma mapper_range_counterexample :
  ~ (forall x keys, 1 <= keys ->
       exists v, map_column_x_to_Vectra_x x keys 512 = Ok v /\ 0 <= v < 512).
Proof.
  intros H. destruct (H 512 (2 ^ 60)) as (v & Hv & Hr); [vm_compute; discriminate|].
  assert (E : map_column_x_to_Vectra_x 512 (2 ^ 60) 512 = Ok 512) by (vm_compute; reflexivity).
  rewrite E in Hv. inversion Hv; subst. lia.
Qed.

(** C6.  With 4 keys and a playfield of width 512, [map(0,4) = 64],
    [map(127,4) = 64], [map(128,4) = 192] and [map(511,4) = 448]. *)
Theorem mapper_four_keys :
  map_column_x_to_Vectra_x 0 4 512 = Ok 64 /\
  map_column_x_to_Vectra_x 127 4 512 = Ok 64 /\
  map_column_x_to_Vectra_x 128 4 512 = Ok 192 /\
  map_column_x_to_Vectra_x 511 4 512 = Ok 448.
Proof. repeat split; vm_compute; reflexivity. Qed.

(** C10.  With at least one key and a playfield of width 512, every value
    the coordinate mapper returns is the centre
    [int(i * (512 / keys) + (512 / keys) / 2)] of a column [i] between 0 and
    [keys - 1]; so the outputs are among the [keys] values of
    [column_centers]. *)
Theorem mapper_image x keys v :
  1 <= keys ->
  map_column_x_to_Vectra_x x keys 512 = Ok v ->
  (exists i, 0 <= i <= keys - 1 /\ column_center i keys 512 = Ok v) /\
  In (Ok v) (column_centers keys 512) /\
  Z.of_nat (List.length (column_centers keys 512)) = keys.
Proof.
  intros Hk H. destruct (mapper_unfold _ _ _ H) as (c & _ & Hc).
  pose proof (clamp_col_range c keys Hk) as Hr.
  split; [exists (clamp_col c keys); split; assumption | split].
  - unfold column_centers. apply in_map_iff.
    exists (Z.to_nat (clamp_col c keys)). split.
    + rewrite Z2Nat.id by lia. exact Hc.
    + apply in_seq. lia.
  - unfold column_centers. rewrite length_map, length_seq. lia.
Qed.

Lemma mapper_image_witness :
  (exists i, 0 <= i <= 4 - 1 /\ column_center i 4 512 = Ok 320) /\
  In (Ok 320) (column_centers 4 512) /\
  Z.of_nat (List.length (column_centers 4 512)) = 4.
Proof.
  apply (mapper_image 300 4 320); [lia | vm_compute; reflexivity].
Defined.

(** * Further properties of the coordinate mapper *)

Lemma mapper_returns keys x :
  1 <= keys <= 2 ^ 49 -> - 2 ^ 900 <= x <= 2 ^ 900 ->
  exists v, map_column_x_to_Vectra_x x keys 512 = Ok v.
Proof.
  intros Hk Hx. destruct (column_index_returns keys x Hk Hx) as (c & Ec).
  destruct (column_center_range keys (clamp_col c keys) Hk) as (v & Hv & _).
  - apply clamp_col_range; lia.
  - exists v. unfold map_column_x_to_Vectra_x. rewrite Ec. exact Hv.
Qed.

Lemma mapper_mono keys x1 x2 v1 v2 :
  1 <= keys -> x1 <= x2 ->
  map_column_x_to_Vectra_x x1 keys 512 = Ok v1 ->
  map_column_x_to_Vectra_x x2 keys 512 = Ok v2 ->
  v1 <= v2.
Proof.
  intros Hk Hx H1 H2.
  destruct (mapper_unfold _ _ _ H1) as (c1 & E1 & C1).
  destruct (mapper_unfold _ _ _ H2) as (c2 & E2 & C2).
  assert (Hc : c1 <= c2) by (eapply (column_index_mono keys 512 x1 x2); eauto; lia).
  eapply (column_center_mono keys 512); [lia | lia | | exact C1 | exact C2].
  apply clamp_col_mono, Hc.
Qed.

(** Between two coordinates with the same image, the image is the same. *)
Lemma mapper_squeeze keys lo hi v x :
  1 <= keys <= 2 ^ 49 -> - 2 ^ 900 <= lo -> hi <= 2 ^ 900 ->
  map_column_x_to_Vectra_x lo keys 512 = Ok v ->
  map_column_x_to_Vectra_x hi keys 512 = Ok v ->
  lo <= x <= hi ->
  map_column_x_to_Vectra_x x keys 512 = Ok v.
Proof.
  intros Hk Hlo Hhi El Eh Hx.
  destruct (mapper_returns keys x Hk ltac:(lia)) as (w & Ew).
  pose proof (mapper_mono keys lo x v w ltac:(lia) ltac:(lia) El Ew).
  pose proof (mapper_mono keys x hi w v ltac:(lia) ltac:(lia) Ew Eh).
  rewrite Ew. f_equal. lia.
Qed.

Ltac closed_bound := vm_compute; first [discriminate | split; discriminate].

(** One column of one key count: the ends of the interval of the column
    have the centre [v] for image. *)
Ltac squeeze_column k c :=
  let lo := lazymatch eval vm_compute in (c =? 0) with
            | true => constr:(- 2 ^ 900)
            | false => eval vm_compute in ((512 * c + k - 1) / k)
            end in
  let hi := lazymatch eval vm_compute in (c =? k - 1) with
            | true => constr:(2 ^ 900)
            | false => eval vm_compute in ((512 * (c + 1) + k - 1) / k - 1)
            end in
  let v := eval vm_compute in ((2 * c + 1) * 256 / k) in
  apply (mapper_squeeze k lo hi v);
  [ closed_bound | closed_bound | closed_bound
  | vm_compute; reflexivity | vm_compute; reflexivity
  | Z.to_euclidean_division_equations; lia ].

Ltac squeeze_columns k :=
  match goal with
  | Hc : ?e = ?c \/ ?rest |- _ =>
      destruct Hc as [Hc | Hc]; [rewrite Hc; squeeze_column k c | squeeze_columns k]
  | Hc : ?e = ?c |- _ => rewrite Hc; squeeze_column k c
  end.

(** The columns [c, c + 1, ..., k - 1] as the cases of the expression [e]. *)
Ltac column_cases e k c :=
  lazymatch eval vm_compute in (c =? k - 1) with
  | true => constr:(e = c)
  | false =>
      let c' := eval vm_compute in (c + 1) in
      let r := column_cases e k c' in
      constr:(e = c \/ r)
  end.

Ltac exact_for k :=
  unfold exact_center;
  lazymatch goal with
  | |- context [?y * k / 512] =>
      let P := column_cases (y * k / 512) k 0 in
      assert (Hc : P) by (Z.to_euclidean_division_equations; lia)
  end;
  squeeze_columns k.

(** X17.  For 1 to 11 keys and a playfield of width 512 the floating-point
    computation of the mapper agrees with exact integer arithmetic: for
    every [x] of absolute value at most 2^900, the value returned is
    [floor((2 * c + 1) * 256 / keys)] where [c = floor(x' * keys / 512)] and
    [x'] is [x] brought into [0, 511]. *)
Theorem mapper_is_exact keys x :
  1 <= keys <= 11 -> - 2 ^ 900 <= x <= 2 ^ 900 ->
  map_column_x_to_Vectra_x x keys 512
  = Ok (exact_center keys (Z.max 0 (Z.min x 511))).
Proof.
  intros Hk Hx.
  assert (Hcases : keys = 1 \/ keys = 2 \/ keys = 3 \/ keys = 4 \/ keys = 5 \/
                   keys = 6 \/ keys = 7 \/ keys = 8 \/ keys = 9 \/ keys = 10 \/
                   keys = 11) by lia.
  clear Hk.
  destruct Hcases as [-> | [-> | [-> | [-> | [-> | [-> | [-> | [-> | [-> | [-> | ->]]]]]]]]]].
  - exact_for 1.
  - exact_for 2.
  - exact_for 3.
  - exact_for 4.
  - exact_for 5.
  - exact_for 6.
  - exact_for 7.
  - exact_for 8.
  - exact_for 9.
  - exact_for 10.
  - exact_for 11.
Qed.

Lemma mapper_is_exact_witness :
  map_column_x_to_Vectra_x 300 7 512 = Ok (exact_center 7 (Z.max 0 (Z.min 300 511))).
Proof.
  apply (mapper_is_exact 7 300); closed_bound.
Defined.

(** ** Coordinates outside the playfield *)

Lemma int_truediv_inv a b w :
  int_truediv a b = Ok w -> b <> 0 /\ w = round (inject_Z a / inject_Z b).
Proof.
  unfold int_truediv. destruct (Z.eqb_spec b 0) as [|Hb]; [discriminate|].
  destruct (round (inject_Z a / inject_Z b)) as [q | s |]; intros H; inversion H;
    split; auto.
Qed.

Lemma int_of_float_inv f c :
  int_of_float f = Ok c -> exists r, f = Fin r /\ c = Qtrunc r.
Proof. destruct f as [r | s |]; cbn; intros H; inversion H; eauto. Qed.

Lemma Qtrunc_Z n : Qtrunc (inject_Z n) = n.
Proof.
  unfold Qtrunc. destruct (Qle_bool 0 (inject_Z n)); [apply Qfloor_Z | apply Qceiling_Z].
Qed.

Lemma column_index_zero keys :
  1 <= keys <= 2 ^ 49 -> column_index 0 keys 512 = Ok 0.
Proof.
  intros Hk.
  destruct (column_index_returns keys 0 Hk ltac:(closed_bound)) as (c & Ec).
  rewrite Ec. f_equal. unfold column_index in Ec.
  destruct (int_truediv 512 keys) as [w|] eqn:Ew; cbn [bind] in Ec; [|discriminate].
  destruct (int_truediv_pos 512 keys _ ltac:(lia) ltac:(lia) Ew) as (wq & -> & Hwq).
  unfold int_div_float in Ec.
  change (float_of_int 0) with (Ok (Fin 0)) in Ec. cbn [bind] in Ec.
  unfold float_truediv in Ec.
  destruct (is_zero (Fin wq)); cbn [bind div] in Ec; [discriminate|].
  rewrite (round_zero (0 / wq)) in Ec by (unfold Qdiv; apply Qmult_0_l).
  cbn in Ec. inversion Ec. reflexivity.
Qed.

(** X18.  For 1 to 2^49 keys, a coordinate that is 0 or negative (down to
    -2^900) is mapped to the centre of the first column. *)
Theorem negative_x_maps_to_first_column keys x :
  1 <= keys <= 2 ^ 49 -> - 2 ^ 900 <= x <= 0 ->
  map_column_x_to_Vectra_x x keys 512 = column_center 0 keys 512.
Proof.
  intros Hk Hx.
  destruct (column_index_returns keys x Hk) as (c & Ec).
  { split; [lia|]. apply Z.le_trans with 0; [lia | closed_bound]. }
  pose proof (column_index_mono keys 512 x 0 c 0 ltac:(lia) ltac:(lia) ltac:(lia)
                Ec (column_index_zero keys Hk)) as Hc.
  unfold map_column_x_to_Vectra_x. rewrite Ec. cbn [bind].
  replace (clamp_col c keys) with 0; [reflexivity|].
  unfold clamp_col. destruct (Z.ltb_spec c 0).
  - destruct (Z.geb_spec 0 keys); [lia | reflexivity].
  - destruct (Z.geb_spec c keys); lia.
Qed.

Lemma negative_x_maps_to_first_column_witness :
  map_column_x_to_Vectra_x (-37) 7 512 = column_center 0 7 512.
Proof.
  apply (negative_x_maps_to_first_column 7 (-37)); closed_bound.
Defined.

(** ** The rounding error from below *)

Lemma round_pos_lower q :
  (0 < q)%Q -> (q - bpow (ulp_exp q - 1) <= round_pos q)%Q.
Proof.
  intros Hq. unfold round_pos. set (ex := ulp_exp q).
  destruct (rne_error (q / bpow ex)) as [_ Hhi].
  pose proof (bpow_pos ex) as Hb.
  assert (Hh : (bpow (ex - 1) == (1 # 2) * bpow ex)%Q).
  { pose proof (bpow_succ (ex - 1)) as Hs.
    replace (ex - 1 + 1) with ex in Hs by ring. rewrite Hs. field. }
  rewrite Hh.
  assert (Hq' : (q == q / bpow ex * bpow ex)%Q) by (field; lra).
  assert (Hm : (q / bpow ex * bpow ex
                <= (inject_Z (rne (q / bpow ex)) + (1 # 2)) * bpow ex)%Q)
    by (apply Qmult_le_compat_r; [exact Hhi | lra]).
  rewrite <- Hq' in Hm. lra.
Qed.

Lemma round_lower q r :
  (0 <= q)%Q -> round q = Fin r -> (q * (1 - eps) - eta <= r)%Q.
Proof.
  intros Hq Hr.
  assert (Heta : (0 < eta)%Q) by reflexivity.
  assert (Heps : (0 < eps)%Q) by reflexivity.
  destruct (Qle_lt_or_eq _ _ Hq) as [Hpos | Hz].
  - destruct (round_pos_view q Hpos) as [[E _] | [E _]]; rewrite E in Hr; [|discriminate].
    inversion Hr; subst r.
    pose proof (round_pos_lower q Hpos). pose proof (half_ulp_bound q Hpos) as Hb.
    rewrite eps_eq in Hb. pose proof eta_ge. lra.
  - rewrite (round_zero q) in Hr by (symmetry; exact Hz).
    inversion Hr; subst r. rewrite <- Hz. lra.
Qed.

Lemma float_of_int_512 : exists p, float_of_int 512 = Ok (Fin p) /\ (p == 512)%Q.
Proof. eexists. split; [vm_compute; reflexivity | reflexivity]. Qed.

Lemma column_index_512 keys :
  1 <= keys <= 2 ^ 49 ->
  exists c, column_index 512 keys 512 = Ok c /\ keys - 1 <= c.
Proof.
  intros Hk.
  destruct (column_index_returns keys 512 Hk ltac:(closed_bound)) as (c & Ec).
  exists c. split; [exact Ec|]. unfold column_index in Ec.
  destruct (int_truediv 512 keys) as [w|] eqn:Ew; cbn [bind] in Ec; [|discriminate].
  destruct (int_truediv_inv _ _ _ Ew) as (_ & Hw).
  destruct (int_truediv_pos 512 keys _ ltac:(lia) ltac:(lia) Ew) as (wq & -> & Hwq).
  symmetry in Hw.
  unfold int_div_float in Ec.
  destruct float_of_int_512 as (p & Ep & Vp). rewrite Ep in Ec. cbn [bind] in Ec.
  unfold float_truediv in Ec.
  destruct (is_zero (Fin wq)) eqn:Ez; cbn [bind div] in Ec; [discriminate|].
  apply is_zero_false in Ez.
  destruct (int_of_float_inv _ _ Ec) as (r & Er & ->).
  (* the bounds *)
  set (K := inject_Z keys) in *.
  assert (HK : (1 <= K <= 562949953421312)%Q)
    by (unfold K; split; [rewrite <- (Zle_Qle 1) | rewrite <- (Zle_Qle _ (2 ^ 49))]; lia).
  set (t := (/ K)%Q) in *.
  assert (Hkt : (K * t == 1)%Q) by (apply Qmult_inv_r; lra).
  assert (Ht2 : ((1 # 562949953421312) <= t)%Q).
  { apply Qmult_le_l with (z := K); [lra|]. rewrite Hkt.
    apply Qle_trans with (562949953421312 * (1 # 562949953421312))%Q.
    - apply Qmult_le_compat_r; [lra | discriminate].
    - apply Qle_lteq; right; reflexivity. }
  assert (Hq0 : (inject_Z 512 / K == 512 * t)%Q) by reflexivity.
  set (q0 := (inject_Z 512 / K)%Q) in *.
  assert (Hq0' : (0 <= q0)%Q).
  { rewrite Hq0. apply Qmult_le_0_compat; [discriminate|].
    apply Qlt_le_weak, Qinv_lt_0_compat. lra. }
  pose proof (round_upper _ _ Hq0' Hw) as [_ Hwu].
  assert (Hwpos : (0 < wq)%Q)
    by (destruct (Qle_lt_or_eq _ _ Hwq) as [|e]; [assumption | symmetry in e; contradiction]).
  assert (Hprod : ((K - (1 # 2)) * wq <= 512)%Q).
  { apply Qle_trans with ((K - (1 # 2)) * (q0 * (1 + eps) + eta))%Q.
    - rewrite !(Qmult_comm (K - (1 # 2))). apply Qmult_le_compat_r; lra.
    - assert (Hx : ((K - (1 # 2)) * (512 * t * (1 + eps) + eta)
                    == 512 * (K * t) * (1 + eps) - 256 * t * (1 + eps)
                       + eta * K - (1 # 2) * eta)%Q) by ring.
      rewrite Hq0, Hx. clearbody K t q0. unfold eps, eta in *. lra. }
  set (d := (p / wq)%Q) in *.
  assert (Hd : (K - (1 # 2) <= d)%Q).
  { unfold d. apply Qle_shift_div_l; [exact Hwpos|]. rewrite Vp. exact Hprod. }
  assert (Hd0 : (0 <= d)%Q) by (clear - Hd HK; clearbody K d; lra).
  pose proof (round_lower _ _ Hd0 Er) as Hr.
  assert (Hrk : (inject_Z (keys - 1) <= r)%Q).
  { unfold Zminus. rewrite inject_Z_plus, inject_Z_opp. fold K.
    change (inject_Z 1) with 1%Q.
    clearbody K t q0 d. unfold eps, eta in *. lra. }
  rewrite <- (Qtrunc_Z (keys - 1)). apply Qtrunc_mono, Hrk.
Qed.

(** X19.  For 1 to 2^49 keys, a coordinate of 512 or more (up to 2^900) is
    mapped to the centre of the last column. *)
Theorem large_x_maps_to_last_column keys x :
  1 <= keys <= 2 ^ 49 -> 512 <= x <= 2 ^ 900 ->
  map_column_x_to_Vectra_x x keys 512 = column_center (keys - 1) keys 512.
Proof.
  intros Hk Hx.
  destruct (column_index_returns keys x Hk) as (c & Ec).
  { split; [|lia]. apply Z.le_trans with 512; [closed_bound | lia]. }
  destruct (column_index_512 keys Hk) as (c0 & E0 & H0).
  pose proof (column_index_mono keys 512 512 x c0 c ltac:(lia) ltac:(lia) ltac:(lia)
                E0 Ec) as Hc.
  unfold map_column_x_to_Vectra_x. rewrite Ec. cbn [bind].
  replace (clamp_col c keys) with (keys - 1); [reflexivity|].
  unfold clamp_col. destruct (Z.ltb_spec c 0); [lia|].
  destruct (Z.geb_spec c keys); lia.
Qed.

Lemma large_x_maps_to_last_column_witness :
  map_column_x_to_Vectra_x 640 7 512 = column_center (7 - 1) 7 512.
Proof.
  apply (large_x_maps_to_last_column 7 640); closed_bound.
Defined.

(** ** A negative number of keys *)

(** X20.  With a negative number of keys the column index is always
    replaced by [keys - 1]: every value the mapper returns is the one
    computed for that index, whatever the coordinate. *)
Theorem negative_keys_ignore_x keys width x v :
  keys < 0 ->
  map_column_x_to_Vectra_x x keys width = Ok v ->
  column_center (keys - 1) keys width = Ok v.
Proof.
  intros Hk H. unfold map_column_x_to_Vectra_x in H.
  destruct (column_index x keys width) as [c|]; cbn [bind] in H; [|discriminate].
  replace (clamp_col c keys) with (keys - 1) in H; [exact H|].
  unfold clamp_col. destruct (Z.ltb_spec c 0).
  - destruct (Z.geb_spec 0 keys); lia.
  - destruct (Z.geb_spec c keys); lia.
Qed.

Lemma negative_keys_ignore_x_witness :
  column_center (-4 - 1) (-4) 512 = Ok 576.
Proof.
  apply (negative_keys_ignore_x (-4) 512 100 576); [lia | vm_compute; reflexivity].
Defined.

Local Open Scope string_scope.

(** * Properties of the chart reader *)

(** ** The chart reader *)

Lemma bind_ok {A B} (r : result A) (k : A -> result B) b :
  bind r k = Ok b -> exists a, r = Ok a /\ k a = Ok b.
Proof. destruct r as [a|e]; cbn; [eauto | discriminate]. Qed.

Lemma in_range_spec lo hi c :
  PyStr.in_range lo hi c = true <-> (lo <= PyStr.code c <= hi)%N.
Proof.
  unfold PyStr.in_range. rewrite andb_true_iff, !N.leb_le. reflexivity.
Qed.

Lemma digit_not_int_space c :
  PyStr.is_digit c = true -> PyStr.is_int_space c = false.
Proof.
  unfold PyStr.is_digit, PyStr.is_int_space. rewrite in_range_spec. intros H.
  repeat (apply orb_false_iff; split);
    apply not_true_is_false; rewrite in_range_spec; lia.
Qed.

Lemma digit_not_sign c :
  PyStr.is_digit c = true -> Ascii.eqb c "-" = false /\ Ascii.eqb c "+" = false.
Proof.
  intros H. split; apply not_true_is_false; intros E;
    apply Ascii.eqb_eq in E; subst c; discriminate H.
Qed.

Lemma digit_value_nonneg c : PyStr.is_digit c = true -> 0 <= PyStr.digit_value c.
Proof.
  unfold PyStr.is_digit, PyStr.digit_value. rewrite in_range_spec. lia.
Qed.

Lemma int_digits_nonneg s : forall acc count b v n,
  PyStr.int_digits s acc count b = Some (v, n) -> 0 <= acc -> 0 <= v.
Proof.
  induction s as [|c s IH]; intros acc count b v n H Hacc; cbn [PyStr.int_digits] in H.
  - destruct b; [discriminate | inversion H; subst; exact Hacc].
  - destruct (PyStr.is_digit c) eqn:Ed.
    + apply IH in H; [exact H|]. pose proof (digit_value_nonneg c Ed). lia.
    + destruct (Ascii.eqb c "_"); [|discriminate].
      destruct b; [discriminate|]. eapply IH; eauto.
Qed.

Lemma strip_keeps_head sp c s :
  sp c = false -> exists r, PyStr.strip_with sp (String c s) = String c r.
Proof.
  intros H. unfold PyStr.strip_with. cbn. rewrite H. cbn. rewrite H. cbn. eauto.
Qed.

(** [int()] of a string that starts with a digit is not negative. *)
Lemma int_nonneg limit c s v :
  PyStr.is_digit c = true -> PyStr.int limit (String c s) = Ok v -> 0 <= v.
Proof.
  intros Hd H. unfold PyStr.int in H.
  destruct (strip_keeps_head PyStr.is_int_space c s (digit_not_int_space c Hd)) as [r Er].
  rewrite Er in H. destruct (digit_not_sign c Hd) as [E1 E2]. rewrite E1, E2 in H.
  unfold PyStr.int_literal in H. rewrite Hd in H.
  destruct (PyStr.int_digits (String c r) 0 0 false) as [[v' n]|] eqn:Ei; [|discriminate].
  destruct (_ && _ && _)%bool; [discriminate|]. inversion H; subst.
  eapply int_digits_nonneg; [exact Ei | lia].
Qed.

Lemma span_digits_head s c d r :
  PyStr.span_digits s = (String c d, r) -> PyStr.is_digit c = true.
Proof.
  destruct s as [|a s]; cbn; [discriminate|].
  destruct (PyStr.is_digit a) eqn:E; [|discriminate].
  destruct (PyStr.span_digits s). intros H. inversion H; subst. exact E.
Qed.

Lemma re_match_head s g :
  PyStr.re_match_digits_colon s = Some g ->
  exists c d, g = String c d /\ PyStr.is_digit c = true.
Proof.
  unfold PyStr.re_match_digits_colon.
  destruct (PyStr.span_digits s) as [[|c d] r] eqn:E; [discriminate|].
  destruct r as [|c' r']; [discriminate|].
  destruct (Ascii.eqb c' ":"); [|discriminate].
  intros H. inversion H; subst. exists c, d. split; [reflexivity|].
  eapply span_digits_head; eauto.
Qed.


Lemma parse_end_time_ok limit type_val parts et e :
  parse_end_time limit type_val parts = Ok et -> et = Some e ->
  0 <= e /\ Z.land type_val 128 <> 0.
Proof.
  unfold parse_end_time. intros H ->.
  destruct (Z.eqb_spec (Z.land type_val 128) 0) as [|Hne]; cbn [negb] in H; [discriminate|].
  destruct (6 <=? List.length parts)%nat; [|discriminate].
  destruct (PyStr.re_match_digits_colon (nth 5 parts "")) as [g|] eqn:Eg; [|discriminate].
  destruct (re_match_head _ _ Eg) as (c & d & -> & Hd).
  unfold int in H.
  destruct (PyStr.int limit (String c d)) as [v|[| |]] eqn:Ev; try discriminate.
  inversion H; subst. split; [|exact Hne]. eapply int_nonneg; eauto.
Qed.

Lemma parse_hitobject_ok limit parts n :
  parse_hitobject limit parts = Ok n -> end_time_ok n.
Proof.
  unfold parse_hitobject. intros H.
  apply bind_ok in H. destruct H as (x & _ & H).
  apply bind_ok in H. destruct H as (time & _ & H).
  apply bind_ok in H. destruct H as (type_val & _ & H).
  apply bind_ok in H. destruct H as (et & Het & H).
  inversion H; subst. intros e He. cbn in He |- *.
  eapply parse_end_time_ok; eauto.
Qed.

Lemma parse_line_ok limit st ln st' :
  parse_line limit st ln = Ok st' ->
  Forall end_time_ok (hitobjects st) -> Forall end_time_ok (hitobjects st').
Proof.
  unfold parse_line. intros H Hst.
  destruct (is_skipped _); [inversion H; subst; exact Hst|].
  destruct (is_section_header _); [inversion H; subst; exact Hst|].
  destruct (section_is "HitObjects" st).
  - destruct (_ <? 5)%nat; [inversion H; subst; exact Hst|].
    apply bind_ok in H. destruct H as (n & Hn & H). inversion H; subst. cbn.
    apply Forall_app. split; [exact Hst|].
    constructor; [|constructor]. eapply parse_hitobject_ok; eauto.
  - destruct (section_is "TimingPoints" st); inversion H; subst; exact Hst.
Qed.

Lemma parse_lines_ok limit lines : forall st st',
  parse_lines limit lines st = Ok st' ->
  Forall end_time_ok (hitobjects st) -> Forall end_time_ok (hitobjects st').
Proof.
  induction lines as [|ln rest IH]; intros st st' H Hst; cbn in H.
  - inversion H; subst; exact Hst.
  - apply bind_ok in H. destruct H as (st1 & H1 & H).
    eapply IH; [exact H|]. eapply parse_line_ok; eauto.
Qed.


(** C3 (amended).  For every note the chart reader produces, an end time
    that is present is not negative, and the type of the note has bit 128
    set.  The reader does not compare the end time with the time. *)
Theorem end_time_is_of_a_hold_note limit text notes m :
  parse_osu_hitobjects limit text = Ok (notes, m) ->
  Forall (fun n => forall e, Note.end_time n = Some e ->
                   0 <= e /\ Z.land (Note.type n) 128 <> 0) notes.
Proof.
  unfold parse_osu_hitobjects. intros H.
  apply bind_ok in H. destruct H as (st & Hst & H). inversion H; subst.
  apply (parse_lines_ok limit _ _ _ Hst). constructor.
Qed.

Lemma end_time_is_of_a_hold_note_witness :
  Forall (fun n => forall e, Note.end_time n = Some e ->
                   0 <= e /\ Z.land (Note.type n) 128 <> 0)
         [Note.mk 448 500 128 (Some 1500)].
Proof.
  apply (end_time_is_of_a_hold_note 4300
           ("[HitObjects]" ++ nl ++ "448,192,500,128,0,1500:0:0:0:0:")
           _ {| timing_points := [] |}).
  vm_compute. reflexivity.
Defined.

(** C3 as stated fails on the hold-note line [0,0,1000,128,0,500:], read as
    a note of time 1000 and end time 500. *)
Lemma end_time_before_time_counterexample :
  ~ (forall limit text notes m,
       parse_osu_hitobjects limit text = Ok (notes, m) ->
       Forall (fun n => forall e, Note.end_time n = Some e -> Note.time n <= e)
              notes).
Proof.
  intros H.
  specialize (H 4300 ("[HitObjects]" ++ nl ++ "0,0,1000,128,0,500:")
                [Note.mk 0 1000 128 (Some 500)] {| timing_points := [] |}).
  assert (E : parse_osu_hitobjects 4300 ("[HitObjects]" ++ nl ++ "0,0,1000,128,0,500:")
              = Ok ([Note.mk 0 1000 128 (Some 500)], {| timing_points := [] |}))
    by (vm_compute; reflexivity).
  specialize (H E). inversion H as [|? ? Hn _]; subst.
  specialize (Hn 500 eq_refl). cbn in Hn. lia.
Qed.

(** C2.  The chart reader raises [ValueError] on the text made of the
    line [[HitObjects]] and the line [a,b,c,d,e]: the three calls of [int()]
    on the fields of a hit object are not guarded, unlike the one on the
    end time. *)
Theorem non_integer_field_raises limit :
  parse_osu_hitobjects limit ("[HitObjects]" ++ nl ++ "a,b,c,d,e")
  = Raise ValueError.
Proof. vm_compute. reflexivity. Qed.

Lemma parse_line_section limit st ln st' :
  parse_line limit st ln = Ok st' ->
  section st' = next_section (section st) ln.
Proof.
  unfold parse_line, next_section. intros H.
  destruct (is_skipped _); [inversion H; reflexivity|].
  destruct (is_section_header _); [inversion H; reflexivity|].
  destruct (section_is "HitObjects" st).
  - destruct (_ <? 5)%nat; [inversion H; reflexivity|].
    apply bind_ok in H. destruct H as (n & _ & H). inversion H; reflexivity.
  - destruct (section_is "TimingPoints" st); inversion H; reflexivity.
Qed.

Lemma parse_lines_section limit lines : forall st st',
  parse_lines limit lines st = Ok st' ->
  section st' = section_after lines (section st).
Proof.
  induction lines as [|ln rest IH]; intros st st' H; cbn in H.
  - inversion H; reflexivity.
  - apply bind_ok in H. destruct H as (st1 & H1 & H).
    rewrite (IH _ _ H). unfold section_after. cbn [fold_left].
    rewrite (parse_line_section _ _ _ _ H1). reflexivity.
Qed.

Lemma parse_lines_app limit a b st :
  parse_lines limit (a ++ b) st
  = bind (parse_lines limit a st) (parse_lines limit b).
Proof.
  revert st. induction a as [|ln a IH]; intros st; cbn; [reflexivity|].
  destruct (parse_line limit st ln) as [st1|e]; cbn; [apply IH | reflexivity].
Qed.

Lemma short_line_leaves_state limit st ln :
  section st = Some "HitObjects" ->
  is_section_header (PyStr.strip ln) = false ->
  (List.length (PyStr.split "," (PyStr.strip ln)) < 5)%nat ->
  parse_line limit st ln = Ok st.
Proof.
  intros Hs Hh Hl. unfold parse_line.
  destruct (is_skipped _); [reflexivity|]. rewrite Hh.
  unfold section_is. rewrite Hs, String.eqb_refl.
  apply Nat.ltb_lt in Hl. rewrite Hl. reflexivity.
Qed.

(** C7.  A line of the [[HitObjects]] section, not itself a section header,
    with fewer than 5 comma-separated fields leaves the state of the reader
    as it is: it adds no note, and the result of the reader is the one for
    the text without that line. *)
Theorem short_hitobject_line_is_skipped limit text text' pre ln post :
  PyStr.splitlines text = (pre ++ ln :: post)%list ->
  PyStr.splitlines text' = (pre ++ post)%list ->
  section_after pre None = Some "HitObjects" ->
  is_section_header (PyStr.strip ln) = false ->
  (List.length (PyStr.split "," (PyStr.strip ln)) < 5)%nat ->
  (forall st, section st = Some "HitObjects" -> parse_line limit st ln = Ok st) /\
  parse_osu_hitobjects limit text = parse_osu_hitobjects limit text'.
Proof.
  intros Ht Ht' Hs Hh Hl. split.
  - intros st Hst. apply short_line_leaves_state; assumption.
  - unfold parse_osu_hitobjects. rewrite Ht, Ht', !parse_lines_app.
    destruct (parse_lines limit pre initial_state) as [st|e] eqn:E; cbn [bind]; [|reflexivity].
    cbn [parse_lines].
    rewrite short_line_leaves_state; [reflexivity | | exact Hh | exact Hl].
    rewrite (parse_lines_section _ _ _ _ E). exact Hs.
Qed.

Lemma short_hitobject_line_is_skipped_witness :
  parse_osu_hitobjects 4300 ("[HitObjects]" ++ nl ++ "1,2,3" ++ nl ++ "0,0,1000,1,0")
  = parse_osu_hitobjects 4300 ("[HitObjects]" ++ nl ++ "0,0,1000,1,0").
Proof.
  apply (short_hitobject_line_is_skipped 4300 _ _
           ["[HitObjects]"] "1,2,3" ["0,0,1000,1,0"]).
  - vm_compute. reflexivity.
  - vm_compute. reflexivity.
  - vm_compute. reflexivity.
  - vm_compute. reflexivity.
  - vm_compute. lia.
Defined.

(** * Further properties of the chart reader *)

(** ** Stripping *)

Lemma lstrip_head sp s :
  PyStr.lstrip_with sp s = "" \/
  exists c r, PyStr.lstrip_with sp s = String c r /\ sp c = false.
Proof.
  induction s as [|c s IH]; cbn; [left; reflexivity|].
  destruct (sp c) eqn:E; [exact IH | right; eauto].
Qed.

Lemma rstrip_head sp c r :
  sp c = false ->
  PyStr.rstrip_with sp (String c r) = String c (PyStr.rstrip_with sp r).
Proof. intros H. cbn. rewrite H. reflexivity. Qed.

Lemma rstrip_idem sp s :
  PyStr.rstrip_with sp (PyStr.rstrip_with sp s) = PyStr.rstrip_with sp s.
Proof.
  induction s as [|c s IH]; [reflexivity|]. cbn [PyStr.rstrip_with].
  destruct (sp c && PyStr.is_empty (PyStr.rstrip_with sp s)) eqn:E; [reflexivity|].
  cbn [PyStr.rstrip_with]. rewrite IH, E. reflexivity.
Qed.

Lemma strip_with_idem sp s :
  PyStr.strip_with sp (PyStr.strip_with sp s) = PyStr.strip_with sp s.
Proof.
  unfold PyStr.strip_with.
  destruct (lstrip_head sp s) as [-> | (c & r & -> & Hc)]; [reflexivity|].
  rewrite (rstrip_head sp c r Hc). cbn [PyStr.lstrip_with]. rewrite Hc.
  rewrite (rstrip_head sp c _ Hc), rstrip_idem. reflexivity.
Qed.

Lemma strip_idem s : PyStr.strip (PyStr.strip s) = PyStr.strip s.
Proof. apply strip_with_idem. Qed.

(** ** Exceptions *)

Lemma int_raises limit s e : PyStr.int limit s = Raise e -> e = ValueError.
Proof.
  unfold PyStr.int.
  destruct (match PyStr.strip_with PyStr.is_int_space s with
            | String c r => _ | EmptyString => _ end) as [neg lit].
  destruct (PyStr.int_literal lit) as [[v n]|]; [|intros H; inversion H; reflexivity].
  destruct (_ && _ && _)%bool; intros H; inversion H; reflexivity.
Qed.

Lemma parse_end_time_returns limit type_val parts :
  exists et, parse_end_time limit type_val parts = Ok et.
Proof.
  unfold parse_end_time.
  destruct (negb _); [|eauto]. destruct (6 <=? _)%nat; [|eauto].
  destruct (PyStr.re_match_digits_colon _) as [g|]; [|eauto].
  unfold int. destruct (PyStr.int limit g) as [v|e] eqn:E; [eauto|].
  apply int_raises in E. subst e. eauto.
Qed.

Lemma bind_raise {A B} (r : result A) (k : A -> result B) e :
  bind r k = Raise e -> r = Raise e \/ exists a, r = Ok a /\ k a = Raise e.
Proof.
  destruct r as [a|e']; cbn; intros H; [right; eauto|].
  left. inversion H. reflexivity.
Qed.

Lemma parse_hitobject_raises limit parts e :
  parse_hitobject limit parts = Raise e -> e = ValueError.
Proof.
  unfold parse_hitobject, int. intros H.
  apply bind_raise in H. destruct H as [H | (x & _ & H)]; [eapply int_raises; eauto|].
  apply bind_raise in H. destruct H as [H | (t & _ & H)]; [eapply int_raises; eauto|].
  apply bind_raise in H. destruct H as [H | (ty & _ & H)]; [eapply int_raises; eauto|].
  destruct (parse_end_time_returns limit ty parts) as [et Et].
  unfold int in Et. rewrite Et in H. cbn in H. discriminate.
Qed.

Lemma parse_line_raises limit st ln e :
  parse_line limit st ln = Raise e ->
  e = ValueError /\ section st = Some "HitObjects" /\
  (5 <= List.length (PyStr.split "," (PyStr.strip ln)))%nat.
Proof.
  unfold parse_line. destruct (is_skipped _); [discriminate|].
  destruct (is_section_header _); [discriminate|].
  destruct (section_is "HitObjects" st) eqn:Es.
  - destruct (Nat.ltb_spec (List.length (PyStr.split "," (PyStr.strip ln))) 5) as [|Hl];
      [discriminate|].
    intros H. apply bind_raise in H. destruct H as [H | (n & _ & H)]; [|discriminate].
    split; [eapply parse_hitobject_raises; eauto | split; [|exact Hl]].
    unfold section_is in Es. destruct (section st) as [s|]; [|discriminate].
    apply String.eqb_eq in Es. subst. reflexivity.
  - destruct (section_is "TimingPoints" st); discriminate.
Qed.

Lemma parse_lines_raises limit lines : forall st e,
  parse_lines limit lines st = Raise e -> e = ValueError.
Proof.
  induction lines as [|ln rest IH]; intros st e H; cbn in H; [discriminate|].
  apply bind_raise in H. destruct H as [H | (st1 & _ & H)].
  - apply parse_line_raises in H. tauto.
  - eapply IH; eauto.
Qed.

(** X1.  The only exception the chart reader raises is [ValueError]. *)
Theorem reader_raises_only_ValueError limit text e :
  parse_osu_hitobjects limit text = Raise e -> e = ValueError.
Proof.
  unfold parse_osu_hitobjects. intros H.
  apply bind_raise in H. destruct H as [H | (st & _ & H)]; [|discriminate].
  eapply parse_lines_raises; eauto.
Qed.

Lemma reader_raises_only_ValueError_witness :
  parse_osu_hitobjects 4300 ("[HitObjects]" ++ nl ++ "1,2,x,4,5") = Raise ValueError /\
  ValueError = ValueError.
Proof.
  split; [vm_compute; reflexivity|].
  apply (reader_raises_only_ValueError 4300 ("[HitObjects]" ++ nl ++ "1,2,x,4,5")).
  vm_compute. reflexivity.
Defined.

(** ** Section headers *)

Lemma split_last r : forall k,
  String.length r = S k -> r = substring 0 k r ++ substring k 1 r.
Proof.
  induction r as [|a r IH]; intros k H; [discriminate|].
  cbn in H. injection H as H. destruct k as [|k].
  - destruct r; [reflexivity | discriminate].
  - cbn. rewrite <- (IH k H). reflexivity.
Qed.

Lemma header_shape ln :
  is_section_header ln = true -> ln = "[" ++ PyStr.slice_1_m1 ln ++ "]".
Proof.
  unfold is_section_header, PyStr.startswith, PyStr.endswith, PyStr.slice_1_m1.
  destruct ln as [|c r]; [discriminate|]. cbn [prefix String.length].
  destruct (ascii_dec "[" c) as [<-|]; [|discriminate].
  rewrite andb_true_iff. intros [_ H]. apply andb_true_iff in H. destruct H as [_ H].
  apply String.eqb_eq in H.
  destruct (String.length r) as [|k] eqn:El.
  - destruct r; [discriminate | discriminate].
  - cbn in H |- *. rewrite Nat.sub_0_r in *.
    rewrite <- H. rewrite <- (split_last r k El). reflexivity.
Qed.

Lemma header_HitObjects ln :
  is_section_header ln = true -> PyStr.slice_1_m1 ln = "HitObjects" ->
  ln = "[HitObjects]".
Proof. intros H E. rewrite (header_shape ln H), E. reflexivity. Qed.

Lemma section_is_false name st :
  section st <> Some name -> section_is name st = false.
Proof.
  unfold section_is. destruct (section st) as [s|]; [|reflexivity].
  intros H. apply String.eqb_neq. intros ->. apply H. reflexivity.
Qed.

Lemma parse_line_without_HitObjects limit st ln :
  section st <> Some "HitObjects" -> PyStr.strip ln <> "[HitObjects]" ->
  exists st', parse_line limit st ln = Ok st' /\
              section st' <> Some "HitObjects" /\
              hitobjects st' = hitobjects st.
Proof.
  intros Hs Hl. unfold parse_line.
  destruct (is_skipped _); [eauto|].
  destruct (is_section_header (PyStr.strip ln)) eqn:Eh.
  - eexists. split; [reflexivity|]. cbn. split; [|reflexivity].
    intros E. injection E as E. apply Hl. apply header_HitObjects; assumption.
  - rewrite (section_is_false _ _ Hs).
    destruct (section_is "TimingPoints" st); eexists; (split; [reflexivity|]); cbn; auto.
Qed.

Lemma parse_lines_without_HitObjects limit lines : forall st,
  section st <> Some "HitObjects" ->
  Forall (fun ln => PyStr.strip ln <> "[HitObjects]") lines ->
  exists st', parse_lines limit lines st = Ok st' /\
              hitobjects st' = hitobjects st.
Proof.
  induction lines as [|ln rest IH]; intros st Hs Hl; cbn [parse_lines]; [eauto|].
  inversion Hl as [|? ? H1 H2]; subst.
  destruct (parse_line_without_HitObjects limit st ln Hs H1) as (st1 & E1 & Hs1 & Ho1).
  rewrite E1. cbn [bind].
  destruct (IH st1 Hs1 H2) as (st' & E & Ho). exists st'. split; [exact E | congruence].
Qed.

(** X2.  On a text none of whose lines is, once stripped, the header
    [[HitObjects]], the chart reader does not raise and returns no note. *)
Theorem no_HitObjects_section_no_notes limit text :
  Forall (fun ln => PyStr.strip ln <> "[HitObjects]") (PyStr.splitlines text) ->
  exists m, parse_osu_hitobjects limit text = Ok ([], m).
Proof.
  intros H. unfold parse_osu_hitobjects.
  destruct (parse_lines_without_HitObjects limit _ initial_state ltac:(discriminate) H)
    as (st & E & Ho).
  rewrite E. cbn [bind]. rewrite Ho. eexists. reflexivity.
Qed.

Lemma no_HitObjects_section_no_notes_witness :
  exists m, parse_osu_hitobjects 4300
              ("[TimingPoints]" ++ nl ++ "0,500,4" ++ nl ++ "[Events]" ++ nl ++ "a,b,c,d,e")
            = Ok ([], m).
Proof.
  apply (no_HitObjects_section_no_notes 4300).
  vm_compute. repeat constructor; discriminate.
Defined.

(** ** White space around a line *)

Lemma parse_line_strip limit st ln :
  parse_line limit st (PyStr.strip ln) = parse_line limit st ln.
Proof. unfold parse_line. rewrite strip_idem. reflexivity. Qed.

Lemma parse_lines_strip limit lines : forall st,
  parse_lines limit (map PyStr.strip lines) st = parse_lines limit lines st.
Proof.
  induction lines as [|ln rest IH]; intros st; cbn [map parse_lines]; [reflexivity|].
  rewrite parse_line_strip.
  destruct (parse_line limit st ln) as [st1|e]; cbn [bind]; [apply IH | reflexivity].
Qed.

(** X3.  The white space around the lines is not significant: two texts
    whose lines are the same once stripped give the same result. *)
Theorem surrounding_white_space_is_ignored limit text text' :
  map PyStr.strip (PyStr.splitlines text) = map PyStr.strip (PyStr.splitlines text') ->
  parse_osu_hitobjects limit text = parse_osu_hitobjects limit text'.
Proof.
  intros H. unfold parse_osu_hitobjects.
  rewrite <- (parse_lines_strip limit (PyStr.splitlines text)),
          <- (parse_lines_strip limit (PyStr.splitlines text')), H.
  reflexivity.
Qed.

Lemma surrounding_white_space_is_ignored_witness :
  parse_osu_hitobjects 4300 ("  [HitObjects] " ++ nl ++ " 64,192,1000,1,0  ")
  = parse_osu_hitobjects 4300 ("[HitObjects]" ++ nl ++ "64,192,1000,1,0").
Proof.
  apply (surrounding_white_space_is_ignored 4300). vm_compute. reflexivity.
Defined.

(** ** Lines of the other sections *)

Lemma other_line_leaves_state limit st ln :
  section st <> Some "HitObjects" -> section st <> Some "TimingPoints" ->
  is_section_header (PyStr.strip ln) = false ->
  parse_line limit st ln = Ok st.
Proof.
  intros H1 H2 Hh. unfold parse_line.
  destruct (is_skipped _); [reflexivity|]. rewrite Hh.
  rewrite (section_is_false _ _ H1), (section_is_false _ _ H2). reflexivity.
Qed.

(** X4.  A line that is not a section header and stands before the first
    header, or in a section other than [[HitObjects]] and [[TimingPoints]],
    is ignored: the result is the one for the text without that line. *)
Theorem line_of_another_section_is_ignored limit text text' pre ln post :
  PyStr.splitlines text = (pre ++ ln :: post)%list ->
  PyStr.splitlines text' = (pre ++ post)%list ->
  section_after pre None <> Some "HitObjects" ->
  section_after pre None <> Some "TimingPoints" ->
  is_section_header (PyStr.strip ln) = false ->
  parse_osu_hitobjects limit text = parse_osu_hitobjects limit text'.
Proof.
  intros Ht Ht' H1 H2 Hh. unfold parse_osu_hitobjects.
  rewrite Ht, Ht', !parse_lines_app.
  destruct (parse_lines limit pre initial_state) as [st|e] eqn:E; cbn [bind]; [|reflexivity].
  cbn [parse_lines].
  pose proof (parse_lines_section _ _ _ _ E) as Hs. cbn [section initial_state] in Hs.
  rewrite other_line_leaves_state; [reflexivity | | | exact Hh]; rewrite Hs; assumption.
Qed.

Lemma line_of_another_section_is_ignored_witness :
  parse_osu_hitobjects 4300
    ("[Metadata]" ++ nl ++ "1,2,x,4,5" ++ nl ++ "[HitObjects]" ++ nl ++ "64,192,1000,1,0")
  = parse_osu_hitobjects 4300
    ("[Metadata]" ++ nl ++ "[HitObjects]" ++ nl ++ "64,192,1000,1,0").
Proof.
  apply (line_of_another_section_is_ignored 4300 _ _
           ["[Metadata]"] "1,2,x,4,5" ["[HitObjects]"; "64,192,1000,1,0"]);
    vm_compute; try reflexivity; discriminate.
Defined.

(** ** What a line adds *)

Lemma parse_line_grows limit st ln st' :
  parse_line limit st ln = Ok st' ->
  exists ns ts,
    hitobjects st' = (hitobjects st ++ ns)%list /\
    r_timing_points st' = (r_timing_points st ++ ts)%list /\
    (List.length ns + List.length ts <= 1)%nat /\
    Forall (fun l => is_skipped l = false /\ is_section_header l = false /\
                     PyStr.strip l = l) ts.
Proof.
  unfold parse_line. intros H.
  assert (Hsame : exists ns ts,
    hitobjects st = (hitobjects st ++ ns)%list /\
    r_timing_points st = (r_timing_points st ++ ts)%list /\
    (List.length ns + List.length ts <= 1)%nat /\
    Forall (fun l => is_skipped l = false /\ is_section_header l = false /\
                     PyStr.strip l = l) ts).
  { exists [], []. rewrite !app_nil_r. cbn. auto. }
  destruct (is_skipped (PyStr.strip ln)) eqn:Ek; [inversion H; subst; exact Hsame|].
  destruct (is_section_header (PyStr.strip ln)) eqn:Eh.
  { inversion H; subst. exact Hsame. }
  destruct (section_is "HitObjects" st).
  - destruct (List.length (PyStr.split "," (PyStr.strip ln)) <? 5)%nat;
      [inversion H; subst; exact Hsame|].
    apply bind_ok in H. destruct H as (n & _ & H). inversion H; subst.
    exists [n], []. cbn. rewrite app_nil_r. auto.
  - destruct (section_is "TimingPoints" st); [|inversion H; subst; exact Hsame].
    inversion H; subst. exists [], [PyStr.strip ln]. cbn. rewrite app_nil_r.
    repeat split; auto. constructor; [|constructor].
    repeat split; [exact Ek | exact Eh | apply strip_idem].
Qed.

Lemma parse_lines_grows limit lines : forall st st',
  parse_lines limit lines st = Ok st' ->
  exists ns ts,
    hitobjects st' = (hitobjects st ++ ns)%list /\
    r_timing_points st' = (r_timing_points st ++ ts)%list /\
    (List.length ns + List.length ts <= List.length lines)%nat /\
    Forall (fun l => is_skipped l = false /\ is_section_header l = false /\
                     PyStr.strip l = l) ts.
Proof.
  induction lines as [|ln rest IH]; intros st st' H; cbn [parse_lines] in H.
  - inversion H; subst. exists [], []. rewrite !app_nil_r. cbn. auto.
  - apply bind_ok in H. destruct H as (st1 & H1 & H).
    destruct (parse_line_grows _ _ _ _ H1) as (ns1 & ts1 & A1 & B1 & C1 & D1).
    destruct (IH _ _ H) as (ns & ts & A & B & C & D).
    exists (ns1 ++ ns)%list, (ts1 ++ ts)%list.
    rewrite A, B, A1, B1, <- !app_assoc. repeat split.
    + rewrite !length_app. cbn [List.length]. lia.
    + apply Forall_app. split; assumption.
Qed.

(** X5.  Every timing point the chart reader returns is a stripped line:
    it is not empty, is not a comment, is not a section header and has no
    white space around it. *)
Theorem timing_points_are_stripped_lines limit text notes m :
  parse_osu_hitobjects limit text = Ok (notes, m) ->
  Forall (fun l => is_skipped l = false /\ is_section_header l = false /\
                   PyStr.strip l = l) (timing_points m).
Proof.
  unfold parse_osu_hitobjects. intros H.
  apply bind_ok in H. destruct H as (st & Hst & H). inversion H; subst. cbn.
  destruct (parse_lines_grows _ _ _ _ Hst) as (ns & ts & _ & B & _ & D).
  rewrite B. exact D.
Qed.

Lemma timing_points_are_stripped_lines_witness :
  Forall (fun l => is_skipped l = false /\ is_section_header l = false /\
                   PyStr.strip l = l) ["0,500,4,2"].
Proof.
  apply (timing_points_are_stripped_lines 4300
           ("[TimingPoints]" ++ nl ++ "  0,500,4,2 " ++ nl ++ "// bpm") []
           {| timing_points := ["0,500,4,2"] |}).
  vm_compute. reflexivity.
Defined.

(** X6.  Each line of the text adds at most one note or one timing point,
    and the reader works from the first line on: what it returns for the
    first lines of a text starts what it returns for the whole text. *)
Theorem reader_output_grows_with_input limit text1 text more_lines notes m :
  PyStr.splitlines text
  = (PyStr.splitlines text1 ++ more_lines)%list ->
  parse_osu_hitobjects limit text = Ok (notes, m) ->
  (List.length notes + List.length (timing_points m)
   <= List.length (PyStr.splitlines text))%nat /\
  exists notes1 m1 more_notes more_points,
    parse_osu_hitobjects limit text1 = Ok (notes1, m1) /\
    notes = (notes1 ++ more_notes)%list /\
    timing_points m = (timing_points m1 ++ more_points)%list.
Proof.
  unfold parse_osu_hitobjects. intros Ht H.
  apply bind_ok in H. destruct H as (st & Hst & H). inversion H; subst. cbn.
  split.
  - destruct (parse_lines_grows _ _ _ _ Hst) as (ns & ts & A & B & C & _).
    rewrite A, B. exact C.
  - rewrite Ht, parse_lines_app in Hst. apply bind_ok in Hst.
    destruct Hst as (st1 & H1 & H2). rewrite H1. cbn [bind].
    destruct (parse_lines_grows _ _ _ _ H2) as (ns & ts & A & B & _ & _).
    exists (hitobjects st1), {| timing_points := r_timing_points st1 |}, ns, ts.
    cbn. auto.
Qed.

Lemma reader_output_grows_with_input_witness :
  exists notes1 m1 more_notes more_points,
    parse_osu_hitobjects 4300 ("[HitObjects]" ++ nl ++ "64,192,1000,1,0")
    = Ok (notes1, m1) /\
    [Note.mk 64 1000 1 None; Note.mk 448 2000 1 None]
    = (notes1 ++ more_notes)%list /\
    timing_points {| timing_points := [] |} = (timing_points m1 ++ more_points)%list.
Proof.
  apply (reader_output_grows_with_input 4300
           ("[HitObjects]" ++ nl ++ "64,192,1000,1,0")
           ("[HitObjects]" ++ nl ++ "64,192,1000,1,0" ++ nl ++ "448,192,2000,1,0")
           ["448,192,2000,1,0"] _ {| timing_points := [] |});
    vm_compute; reflexivity.
Defined.

(** ** The fields of a hit object *)

(** X7.  In the section [[HitObjects]], a line that is not skipped, is not a
    header and has at least five fields of which the first, the third and
    the fourth are integers adds exactly one note, whose [x], [time] and
    [type] are those integers; the note has an end time only if bit 128 of
    the type is set and there are at least six fields.  The second and the
    fifth field are never read. *)
Theorem hit_object_fields limit st ln x time type_val :
  section st = Some "HitObjects" ->
  is_skipped (PyStr.strip ln) = false ->
  is_section_header (PyStr.strip ln) = false ->
  let parts := PyStr.split "," (PyStr.strip ln) in
  (5 <= List.length parts)%nat ->
  PyStr.int limit (nth 0 parts "") = Ok x ->
  PyStr.int limit (nth 2 parts "") = Ok time ->
  PyStr.int limit (nth 3 parts "") = Ok type_val ->
  exists end_time,
    parse_line limit st ln
    = Ok {| section := section st;
            hitobjects := (hitobjects st ++ [Note.mk x time type_val end_time])%list;
            r_timing_points := r_timing_points st |} /\
    (end_time <> None ->
     Z.land type_val 128 <> 0 /\ (6 <= List.length parts)%nat).
Proof.
  intros Hs Hk Hh parts Hl Hx Ht Hty.
  destruct (parse_end_time_returns limit type_val parts) as [et Et].
  exists et. split.
  - unfold parse_line. rewrite Hk, Hh. unfold section_is. rewrite Hs, String.eqb_refl.
    fold parts. apply Nat.ltb_ge in Hl. rewrite Hl.
    unfold parse_hitobject, int. rewrite Hx, Ht, Hty. cbn [bind].
    rewrite Et. reflexivity.
  - intros Hne. unfold parse_end_time in Et.
    destruct (Z.eqb_spec (Z.land type_val 128) 0) as [|Hb]; cbn [negb] in Et;
      [inversion Et; subst; contradiction|].
    split; [exact Hb|].
    destruct (Nat.leb_spec 6 (List.length parts)) as [H6|]; [exact H6|].
    inversion Et; subst; contradiction.
Qed.

Lemma hit_object_fields_witness :
  exists end_time,
    parse_line 4300 {| section := Some "HitObjects"; hitobjects := [];
                       r_timing_points := [] |} "448,y,500,128,hs,1500:0"
    = Ok {| section := Some "HitObjects";
            hitobjects := [Note.mk 448 500 128 end_time];
            r_timing_points := [] |} /\
    (end_time <> None -> Z.land 128 128 <> 0 /\ (6 <= 6)%nat).
Proof.
  apply (hit_object_fields 4300
           {| section := Some "HitObjects"; hitobjects := []; r_timing_points := [] |}
           "448,y,500,128,hs,1500:0" 448 500 128);
    vm_compute; try reflexivity. lia.
Defined.

(** ** Line endings *)

Lemma splitlines_nl s rest :
  no_linebreak s = true ->
  PyStr.splitlines (s ++ nl ++ rest) = s :: PyStr.splitlines rest.
Proof.
  induction s as [|c s IH]; intros H; [reflexivity|].
  cbn [no_linebreak] in H. apply andb_true_iff in H. destruct H as [Hc Hs].
  apply negb_true_iff in Hc.
  cbn [append PyStr.splitlines]. rewrite Hc, (IH Hs). reflexivity.
Qed.

Lemma splitlines_crlf s rest :
  no_linebreak s = true ->
  PyStr.splitlines (s ++ crlf ++ rest) = s :: PyStr.splitlines rest.
Proof.
  induction s as [|c s IH]; intros H; [reflexivity|].
  cbn [no_linebreak] in H. apply andb_true_iff in H. destruct H as [Hc Hs].
  apply negb_true_iff in Hc.
  cbn [append PyStr.splitlines]. rewrite Hc, (IH Hs). reflexivity.
Qed.

Lemma splitlines_join_crlf lines :
  Forall (fun l => no_linebreak l = true) lines ->
  PyStr.splitlines (PyStr.join crlf lines) = PyStr.splitlines (PyStr.join nl lines).
Proof.
  unfold PyStr.join. induction lines as [|x [|y l] IH]; intros H; try reflexivity.
  inversion H as [|? ? Hx Hl]; subst.
  change (concat crlf (x :: y :: l)) with (x ++ crlf ++ concat crlf (y :: l)).
  change (concat nl (x :: y :: l)) with (x ++ nl ++ concat nl (y :: l)).
  rewrite (splitlines_crlf x _ Hx), (splitlines_nl x _ Hx), (IH Hl). reflexivity.
Qed.

(** X8.  Lines joined by a carriage return and a line feed are read like the
    same lines joined by a line feed. *)
Theorem crlf_line_endings limit lines :
  Forall (fun l => no_linebreak l = true) lines ->
  parse_osu_hitobjects limit (PyStr.join crlf lines)
  = parse_osu_hitobjects limit (PyStr.join nl lines).
Proof.
  intros H. unfold parse_osu_hitobjects. rewrite (splitlines_join_crlf lines H).
  reflexivity.
Qed.

Lemma crlf_line_endings_witness :
  parse_osu_hitobjects 4300 (PyStr.join crlf ["[HitObjects]"; "64,192,1000,1,0"; ""])
  = parse_osu_hitobjects 4300 (PyStr.join nl ["[HitObjects]"; "64,192,1000,1,0"; ""]).
Proof.
  apply (crlf_line_endings 4300). repeat constructor.
Defined.

(** * Properties of the output generator and of the driver *)

(** ** The output generator *)

Lemma note_lines_mapped keys notes : forall dest acc,
  mapped keys notes dest ->
  note_lines keys notes acc = Ok (acc ++ rendered_notes notes dest)%list.
Proof.
  induction notes as [|n notes IH]; intros dest acc H; inversion H; subst.
  - cbn. rewrite app_nil_r. reflexivity.
  - cbn [note_lines]. unfold note_line at 1.
    match goal with E : map_column_x_to_Vectra_x _ _ _ = _ |- _ => rewrite E end.
    cbn [bind]. rewrite (IH _ _ ltac:(eassumption)).
    rewrite <- app_assoc. reflexivity.
Qed.

Lemma note_lines_ok keys notes : forall acc lines,
  note_lines keys notes acc = Ok lines ->
  exists dest, mapped keys notes dest /\
               lines = (acc ++ rendered_notes notes dest)%list.
Proof.
  induction notes as [|n notes IH]; intros acc lines H; cbn [note_lines] in H.
  - inversion H; subst. exists []. split; [constructor|].
    cbn. rewrite app_nil_r. reflexivity.
  - apply bind_ok in H. destruct H as (l & Hl & H).
    unfold note_line in Hl. apply bind_ok in Hl. destruct Hl as (ex & Hex & Hl).
    inversion Hl; subst l. destruct (IH _ _ H) as (dest & Hd & ->).
    exists (ex :: dest). split; [constructor; assumption|].
    rewrite <- app_assoc. reflexivity.
Qed.



Lemma map_lua_lines_mapped title song notes keys dest :
  mapped keys notes dest ->
  map_lua_lines title song notes keys
  = Ok (header_lines title song notes ++ rendered_notes notes dest
        ++ footer_lines)%list.
Proof.
  intros H. unfold map_lua_lines.
  rewrite (note_lines_mapped keys notes dest [] H). reflexivity.
Qed.

Lemma map_lua_lines_ok title song notes keys lines :
  map_lua_lines title song notes keys = Ok lines ->
  exists dest, mapped keys notes dest /\
    lines = (header_lines title song notes ++ rendered_notes notes dest
             ++ footer_lines)%list.
Proof.
  unfold map_lua_lines. intros H. apply bind_ok in H.
  destruct H as (ls & Hls & H). inversion H; subst.
  destruct (note_lines_ok _ _ _ _ Hls) as (dest & Hd & ->).
  exists dest. split; [exact Hd | reflexivity].
Qed.



(** ** The chart length *)

Lemma py_max_spec rest : forall first,
  (py_max first rest = first \/ In (py_max first rest) rest) /\
  first <= py_max first rest /\
  Forall (fun z => z <= py_max first rest) rest.
Proof.
  unfold py_max. induction rest as [|z rest IH]; intros first; cbn [fold_left].
  - split; [left; reflexivity | split; [lia | constructor]].
  - destruct (IH (Z.max first z)) as (Hin & Hle & Hall).
    split; [|split].
    + destruct Hin as [E | Hin]; [|right; right; exact Hin].
      rewrite E. destruct (Z.max_spec first z) as [[_ ->] | [_ ->]];
        [right; left; reflexivity | left; reflexivity].
    + lia.
    + constructor; [lia | exact Hall].
Qed.

Lemma end_or_time_spec n :
  Note.end_time n <> Some 0 -> end_or_time n = spec_endpoint n.
Proof.
  unfold end_or_time, spec_endpoint. destruct (Note.end_time n) as [e|]; [|reflexivity].
  intros H. destruct (Z.eqb_spec e 0) as [->|]; [contradiction | reflexivity].
Qed.

Lemma max_time_spec notes :
  notes <> [] -> Forall (fun n => Note.end_time n <> Some 0) notes ->
  In (max_time notes) (map spec_endpoint notes) /\
  Forall (fun n => spec_endpoint n <= max_time notes) notes.
Proof.
  destruct notes as [|n ns]; [contradiction|]. intros _ H.
  assert (E : map end_or_time (n :: ns) = map spec_endpoint (n :: ns)).
  { apply map_ext_in. intros a Ha. apply end_or_time_spec.
    rewrite Forall_forall in H. apply H, Ha. }
  cbn [map] in E. inversion E as [[E1 E2]].
  unfold max_time. rewrite E1, E2.
  destruct (py_max_spec (map spec_endpoint ns) (spec_endpoint n)) as (Hin & Hle & Hall).
  split.
  - cbn [map]. destruct Hin as [-> | Hin]; [left; reflexivity | right; exact Hin].
  - constructor; [exact Hle|]. rewrite Forall_map in Hall. exact Hall.
Qed.

Lemma append_empty_r s : s ++ "" = s.
Proof. induction s as [|c s IH]; cbn; [reflexivity | rewrite IH; reflexivity]. Qed.

(** C1 (amended).  Line 24 of the generated text is [  return L] with [L]
    the chart length.  For the empty note list [L] is 1.  For a non-empty
    list in which no end time is 0, [L] is [floor(m / 1000) + 1] where [m]
    is the maximum over the notes of the end time if present, else the
    time. *)
Theorem chart_length_spec title song notes keys :
  (forall lines, map_lua_lines title song notes keys = Ok lines ->
     nth 23 lines "" = "  return " ++ PyStr.str (chart_length notes)) /\
  (notes = [] -> chart_length notes = 1) /\
  (notes <> [] -> Forall (fun n => Note.end_time n <> Some 0) notes ->
     exists m, In m (map spec_endpoint notes) /\
               Forall (fun n => spec_endpoint n <= m) notes /\
               chart_length notes = m / 1000 + 1).
Proof.
  split; [|split].
  - intros lines H. destruct (map_lua_lines_ok _ _ _ _ _ H) as (dest & _ & ->).
    cbn [header_lines app nth]. unfold format1. rewrite append_empty_r. reflexivity.
  - intros ->. reflexivity.
  - intros Hne Hall. destruct (max_time_spec notes Hne Hall) as (Hin & Hle).
    exists (max_time notes). split; [exact Hin | split; [exact Hle | reflexivity]].
Qed.

Lemma chart_length_spec_witness :
  exists m, In m (map spec_endpoint [Note.mk 0 1000 1 None; Note.mk 64 60000 128 (Some 61500)]) /\
            Forall (fun n => spec_endpoint n <= m)
                   [Note.mk 0 1000 1 None; Note.mk 64 60000 128 (Some 61500)] /\
            chart_length [Note.mk 0 1000 1 None; Note.mk 64 60000 128 (Some 61500)]
            = m / 1000 + 1.
Proof.
  apply (proj2 (proj2 (chart_length_spec "t" "s"
           [Note.mk 0 1000 1 None; Note.mk 64 60000 128 (Some 61500)] 4))).
  - discriminate.
  - repeat constructor; cbn; discriminate.
Defined.

(** C1 as stated fails on the empty note list, whose generated length is
    1. *)
Lemma chart_length_counterexample :
  ~ (forall notes, notes = [] -> chart_length notes = 0).
Proof.
  intros H. specialize (H [] eq_refl). vm_compute in H. discriminate H.
Qed.

(** ** The driver's sort *)


Lemma insert_by_time_perm n l : Permutation (n :: l) (insert_by_time n l).
Proof.
  induction l as [|m l IH]; cbn; [reflexivity|].
  destruct (Note.time n <=? Note.time m)%Z; [reflexivity|].
  rewrite perm_swap. apply perm_skip, IH.
Qed.

Lemma insert_by_time_sorted n l :
  StronglySorted time_le l -> StronglySorted time_le (insert_by_time n l).
Proof.
  induction l as [|m l IH]; intros H; cbn.
  - constructor; constructor.
  - inversion H as [|? ? Hl Hm]; subst.
    destruct (Z.leb_spec (Note.time n) (Note.time m)) as [Hle | Hgt].
    + constructor; [exact H|]. constructor; [exact Hle|].
      eapply Forall_impl; [|exact Hm]. unfold time_le. intros; lia.
    + constructor; [apply IH, Hl|].
      eapply Permutation_Forall; [apply insert_by_time_perm|].
      constructor; [unfold time_le; lia | exact Hm].
Qed.

Lemma insert_by_time_filter t n l :
  filter (time_is t) (insert_by_time n l) = filter (time_is t) (n :: l).
Proof.
  induction l as [|m l IH]; cbn [insert_by_time]; [reflexivity|].
  destruct (Z.leb_spec (Note.time n) (Note.time m)) as [Hle | Hgt]; [reflexivity|].
  cbn [filter] in IH |- *. rewrite IH. unfold time_is.
  destruct (Z.eqb_spec (Note.time m) t), (Z.eqb_spec (Note.time n) t);
    try reflexivity; lia.
Qed.

Lemma sorted_by_time_perm l : Permutation l (sorted_by_time l).
Proof.
  induction l as [|n l IH]; cbn; [constructor|].
  rewrite <- insert_by_time_perm. apply perm_skip, IH.
Qed.

Lemma sorted_by_time_sorted l : StronglySorted time_le (sorted_by_time l).
Proof.
  induction l as [|n l IH]; cbn; [constructor | apply insert_by_time_sorted, IH].
Qed.

Lemma sorted_by_time_stable t l :
  filter (time_is t) (sorted_by_time l) = filter (time_is t) l.
Proof.
  induction l as [|n l IH]; cbn [sorted_by_time]; [reflexivity|].
  rewrite insert_by_time_filter. cbn [filter]. rewrite IH. reflexivity.
Qed.

(** C9.  The notes given to the generator are the parsed notes in ascending
    order of time, notes of equal time keeping their relative order, and
    the tuples of the generated text follow that order. *)
Theorem notes_are_rendered_in_time_order limit text title keys hitobjects m :
  parse_osu_hitobjects limit text = Ok (hitobjects, m) ->
  let notes := sorted_by_time hitobjects in
  convert limit text title keys
  = generate_map_lua title (format1 "maps/" title "/song.mp3") notes keys /\
  StronglySorted (fun a b => Note.time a <= Note.time b) notes /\
  Permutation hitobjects notes /\
  (forall t, filter (time_is t) notes = filter (time_is t) hitobjects) /\
  (forall out, convert limit text title keys = Ok out ->
     exists dest, mapped keys notes dest /\
       out = PyStr.join nl (header_lines title (format1 "maps/" title "/song.mp3") notes
                            ++ rendered_notes notes dest ++ footer_lines)%list).
Proof.
  intros H notes.
  assert (E : convert limit text title keys
              = generate_map_lua title (format1 "maps/" title "/song.mp3") notes keys).
  { unfold convert. rewrite H. reflexivity. }
  split; [exact E | split; [apply sorted_by_time_sorted | split;
    [apply sorted_by_time_perm | split; [intros t; apply sorted_by_time_stable|]]]].
  intros out Hout. rewrite E in Hout.
  unfold generate_map_lua in Hout. apply bind_ok in Hout.
  destruct Hout as (lines & Hl & Hout). inversion Hout; subst.
  destruct (map_lua_lines_ok _ _ _ _ _ Hl) as (dest & Hd & ->).
  exists dest. split; [exact Hd | reflexivity].
Qed.

Lemma notes_are_rendered_in_time_order_witness :
  convert 4300 ("[HitObjects]" ++ nl ++ "0,0,1000,1,0" ++ nl ++ "480,0,500,1,0"
                ++ nl ++ "200,0,500,1,0") "t" 4
  = generate_map_lua "t" (format1 "maps/" "t" "/song.mp3")
      [Note.mk 480 500 1 None; Note.mk 200 500 1 None; Note.mk 0 1000 1 None] 4.
Proof.
  apply (notes_are_rendered_in_time_order 4300 _ "t" 4
           [Note.mk 0 1000 1 None; Note.mk 480 500 1 None; Note.mk 200 500 1 None]
           {| timing_points := [] |}).
  vm_compute. reflexivity.
Defined.

(** * Further properties of the output generator *)

(** ** The chart length *)

Lemma max_time_char notes :
  notes <> [] ->
  In (max_time notes) (map end_or_time notes) /\
  Forall (fun n => end_or_time n <= max_time notes) notes.
Proof.
  destruct notes as [|n ns]; [contradiction|]. intros _. unfold max_time.
  destruct (py_max_spec (map end_or_time ns) (end_or_time n)) as (Hin & Hle & Hall).
  split.
  - cbn [map]. destruct Hin as [-> | Hin]; [left; reflexivity | right; exact Hin].
  - constructor; [exact Hle|]. rewrite Forall_map in Hall. exact Hall.
Qed.

(** X9.  For a non-empty note list the chart length, in seconds, is more
    than the end time of every note, or its time when the end time is
    missing or 0, and some note reaches the last second. *)
Theorem chart_length_covers_notes notes :
  notes <> [] ->
  Forall (fun n => end_or_time n < 1000 * chart_length notes /\
                   (Note.end_time n = None ->
                    Note.time n < 1000 * chart_length notes)) notes /\
  Exists (fun n => 1000 * (chart_length notes - 1) <= end_or_time n) notes.
Proof.
  intros Hne. destruct (max_time_char notes Hne) as (Hin & Hall).
  unfold chart_length.
  pose proof (Z.mul_succ_div_gt (max_time notes) 1000 ltac:(lia)) as Hgt.
  pose proof (Z.mul_div_le (max_time notes) 1000 ltac:(lia)) as Hle.
  split.
  - eapply Forall_impl; [|exact Hall]. cbn beta. intros n Hn.
    assert (H : end_or_time n < 1000 * (max_time notes / 1000 + 1)) by lia.
    split; [exact H|]. intros E. unfold end_or_time in H. rewrite E in H. exact H.
  - apply in_map_iff in Hin. destruct Hin as (n & En & Hn).
    apply Exists_exists. exists n. split; [exact Hn | lia].
Qed.

Lemma chart_length_covers_notes_witness :
  Exists (fun n => 1000 * (chart_length [Note.mk 0 1000 1 None; Note.mk 64 2500 1 None] - 1)
                   <= end_or_time n)
         [Note.mk 0 1000 1 None; Note.mk 64 2500 1 None].
Proof.
  apply (chart_length_covers_notes [Note.mk 0 1000 1 None; Note.mk 64 2500 1 None]).
  discriminate.
Defined.

Lemma max_time_perm l l' : Permutation l l' -> max_time l = max_time l'.
Proof.
  intros P. destruct l as [|n ns].
  - apply Permutation_nil in P. subst. reflexivity.
  - assert (Hl : n :: ns <> []) by discriminate.
    assert (Hl' : l' <> []).
    { intros ->. apply Permutation_sym, Permutation_nil in P. discriminate. }
    destruct (max_time_char _ Hl) as (I1 & A1), (max_time_char _ Hl') as (I2 & A2).
    apply in_map_iff in I1, I2.
    destruct I1 as (a & Ea & Ia), I2 as (b & Eb & Ib).
    rewrite Forall_forall in A1, A2.
    assert (H1 : end_or_time a <= max_time l')
      by (apply A2; eapply Permutation_in; eauto).
    assert (H2 : end_or_time b <= max_time (n :: ns))
      by (apply A1; eapply Permutation_in; [apply Permutation_sym|]; eauto).
    lia.
Qed.

(** X10.  The chart length does not depend on the order of the notes; so
    the driver's sort does not change it. *)
Theorem chart_length_ignores_order l :
  (forall l', Permutation l l' -> chart_length l' = chart_length l) /\
  chart_length (sorted_by_time l) = chart_length l.
Proof.
  assert (H : forall l', Permutation l l' -> chart_length l' = chart_length l).
  { intros l' P. unfold chart_length. rewrite (max_time_perm l l' P). reflexivity. }
  split; [exact H | apply H, sorted_by_time_perm].
Qed.

Lemma chart_length_ignores_order_witness :
  chart_length [Note.mk 64 2500 1 None; Note.mk 0 1000 1 None]
  = chart_length [Note.mk 0 1000 1 None; Note.mk 64 2500 1 None].
Proof.
  apply (proj1 (chart_length_ignores_order [Note.mk 0 1000 1 None; Note.mk 64 2500 1 None])).
  apply perm_swap.
Defined.

(** ** The song path *)




(** ** The place of a note in the text *)





(** ** Exceptions *)





(** * Further properties of the driver's sort *)

Lemma time_is_true t n : time_is t n = true <-> Note.time n = t.
Proof. unfold time_is. apply Z.eqb_eq. Qed.

Lemma filter_time_head a l :
  filter (time_is (Note.time a)) (a :: l) = a :: filter (time_is (Note.time a)) l.
Proof.
  cbn [filter]. unfold time_is at 1. rewrite Z.eqb_refl. reflexivity.
Qed.

Lemma filter_time_other a l t :
  Note.time a <> t -> filter (time_is t) (a :: l) = filter (time_is t) l.
Proof.
  intros H. cbn [filter]. unfold time_is at 1.
  apply Z.eqb_neq in H. rewrite H. reflexivity.
Qed.

Lemma head_is_least a l x :
  StronglySorted time_le (a :: l) -> In x (a :: l) -> Note.time a <= Note.time x.
Proof.
  intros H Hx. inversion H as [|? ? _ Hall]; subst.
  destruct Hx as [<- | Hx]; [lia|].
  rewrite Forall_forall in Hall. apply Hall, Hx.
Qed.

Lemma sorted_lists_with_equal_classes l1 : forall l2,
  StronglySorted time_le l1 -> StronglySorted time_le l2 ->
  (forall t, filter (time_is t) l1 = filter (time_is t) l2) ->
  l1 = l2.
Proof.
  induction l1 as [|a l1 IH]; intros l2 S1 S2 H.
  - destruct l2 as [|b l2]; [reflexivity|].
    specialize (H (Note.time b)). rewrite filter_time_head in H. discriminate.
  - destruct l2 as [|b l2].
    { specialize (H (Note.time a)). rewrite filter_time_head in H. discriminate. }
    assert (Ha : In a (b :: l2)).
    { apply (proj1 (filter_In (time_is (Note.time a)) a (b :: l2))).
      rewrite <- H, filter_time_head. left. reflexivity. }
    assert (Hb : In b (a :: l1)).
    { apply (proj1 (filter_In (time_is (Note.time b)) b (a :: l1))).
      rewrite H, filter_time_head. left. reflexivity. }
    pose proof (head_is_least _ _ _ S2 Ha) as Hba.
    pose proof (head_is_least _ _ _ S1 Hb) as Hab.
    assert (Et : Note.time b = Note.time a) by lia.
    pose proof (H (Note.time a)) as H0.
    rewrite filter_time_head, <- Et, filter_time_head in H0.
    injection H0 as Eab H0. subst b. f_equal.
    inversion S1; inversion S2; subst.
    apply IH; [assumption | assumption|].
    intros t. destruct (Z.eq_dec (Note.time a) t) as [<- | Hne]; [exact H0|].
    specialize (H t). rewrite !(filter_time_other a _ t Hne) in H. exact H.
Qed.

(** X15.  The driver's sorted list is the only list in ascending order of
    time in which, for every time, the notes of that time are those of the
    input in the order of the input: a stable sort can return nothing
    else. *)
Theorem stable_sort_is_unique hitobjects l :
  StronglySorted (fun a b => Note.time a <= Note.time b) l ->
  (forall t, filter (time_is t) l = filter (time_is t) hitobjects) ->
  l = sorted_by_time hitobjects.
Proof.
  intros S H. apply sorted_lists_with_equal_classes.
  - exact S.
  - apply sorted_by_time_sorted.
  - intros t. rewrite H, sorted_by_time_stable. reflexivity.
Qed.

Lemma stable_sort_is_unique_witness :
  [Note.mk 480 500 1 None; Note.mk 200 500 1 None; Note.mk 0 1000 1 None]
  = sorted_by_time
      [Note.mk 0 1000 1 None; Note.mk 480 500 1 None; Note.mk 200 500 1 None].
Proof.
  apply stable_sort_is_unique.
  - repeat constructor; cbn; lia.
  - intros t. cbn [filter]. unfold time_is. cbn [Note.time].
    destruct (Z.eqb_spec 1000 t), (Z.eqb_spec 500 t); try reflexivity; lia.
Defined.

(** X16.  Notes that are already in ascending order of time are left in
    their order by the driver's sort, and sorting twice is sorting once. *)
Theorem sort_keeps_sorted_notes l :
  (StronglySorted (fun a b => Note.time a <= Note.time b) l ->
   sorted_by_time l = l) /\
  sorted_by_time (sorted_by_time l) = sorted_by_time l.
Proof.
  assert (H : forall l', StronglySorted time_le l' -> sorted_by_time l' = l').
  { intros l' S. apply sorted_lists_with_equal_classes;
      [apply sorted_by_time_sorted | exact S | intros t; apply sorted_by_time_stable]. }
  split; [apply H | apply H, sorted_by_time_sorted].
Qed.

Lemma sort_keeps_sorted_notes_witness :
  sorted_by_time [Note.mk 480 500 1 None; Note.mk 200 500 1 None; Note.mk 0 1000 1 None]
  = [Note.mk 480 500 1 None; Note.mk 200 500 1 None; Note.mk 0 1000 1 None].
Proof.
  apply (proj1 (sort_keeps_sorted_notes _)). repeat constructor; cbn; lia.
Defined.

(** * The whole conversion *)

Lemma mapped_exists keys notes :
  1 <= keys <= 2 ^ 49 ->
  Forall (fun n => - 2 ^ 900 <= Note.x n <= 2 ^ 900) notes ->
  exists dest, mapped keys notes dest /\ Forall (fun d => 0 <= d < 512) dest.
Proof.
  intros Hk. induction 1 as [|n notes Hn _ (dest & Hd & Hr)].
  - exists []. split; constructor.
  - destruct (column_index_returns keys (Note.x n) Hk Hn) as (c & Ec).
    destruct (column_center_range keys (clamp_col c keys) Hk) as (v & Hv & Hvr).
    { apply clamp_col_range; lia. }
    exists (v :: dest). split; constructor; try assumption.
    unfold map_column_x_to_Vectra_x. rewrite Ec. exact Hv.
Qed.

(** X21.  When the chart reader returns, the number of keys is between 1
    and 2^49 and the [x] of every note is at most 2^900 in absolute value,
    the conversion returns a text: the header, one tuple per note in the
    sorted order, each with a coordinate in [0, 512), and the footer. *)
Theorem conversion_returns limit text title keys notes m :
  parse_osu_hitobjects limit text = Ok (notes, m) ->
  1 <= keys <= 2 ^ 49 ->
  Forall (fun n => - 2 ^ 900 <= Note.x n <= 2 ^ 900) notes ->
  exists dest,
    mapped keys (sorted_by_time notes) dest /\
    Forall (fun d => 0 <= d < 512) dest /\
    convert limit text title keys
    = Ok (PyStr.join nl
            (header_lines title (format1 "maps/" title "/song.mp3")
               (sorted_by_time notes)
             ++ rendered_notes (sorted_by_time notes) dest
             ++ footer_lines)%list).
Proof.
  intros Hp Hk Hx.
  assert (Hs : Forall (fun n => - 2 ^ 900 <= Note.x n <= 2 ^ 900) (sorted_by_time notes))
    by (eapply Permutation_Forall; [apply sorted_by_time_perm | exact Hx]).
  destruct (mapped_exists keys _ Hk Hs) as (dest & Hd & Hr).
  exists dest. split; [exact Hd | split; [exact Hr|]].
  unfold convert. rewrite Hp. cbn [bind fst]. unfold generate_map_lua.
  rewrite (map_lua_lines_mapped _ _ _ _ _ Hd). reflexivity.
Qed.

Lemma conversion_returns_witness :
  exists dest,
    mapped 4 (sorted_by_time [Note.mk 0 1000 1 None; Note.mk 480 500 1 None]) dest /\
    Forall (fun d => 0 <= d < 512) dest /\
    convert 4300 ("[HitObjects]" ++ nl ++ "0,192,1000,1,0" ++ nl ++ "480,192,500,1,0")
            "song" 4
    = Ok (PyStr.join nl
            (header_lines "song" (format1 "maps/" "song" "/song.mp3")
               (sorted_by_time [Note.mk 0 1000 1 None; Note.mk 480 500 1 None])
             ++ rendered_notes
                  (sorted_by_time [Note.mk 0 1000 1 None; Note.mk 480 500 1 None]) dest
             ++ footer_lines)%list).
Proof.
  apply (conversion_returns 4300 _ "song" 4 _ {| timing_points := [] |}).
  - vm_compute. reflexivity.
  - closed_bound.
  - repeat constructor; closed_bound.
Defined.

(** With 12 keys the centre of the eighth column is 320 in exact
    arithmetic and 319 in floating point. *)
Example mapper_twelve_keys :
  map_column_x_to_Vectra_x 300 12 512 = Ok 319 /\ exact_center 12 300 = 320.
Proof. split; vm_compute; reflexivity. Qed.

(** ** Checks on concrete inputs *)

(** The rounding above and the binary64 operations of the Standard Library
    agree on conversions, quotients, products and sums, up to the overflow
    threshold and down to the subnormal numbers. *)
Example rounding_agrees_with_binary64 :
  forallb agrees_with_binary64 agreement_samples = true.
Proof. vm_compute. reflexivity. Qed.

(** The scenario of the specification: two notes given out of order. *)
Example two_notes_scenario :
  convert 4300 ("[HitObjects]" ++ nl ++ "0,192,1000,1,0" ++ nl ++ "480,192,500,1,0")
          "song" 4
  = Ok (PyStr.join nl
          (header_lines "song" "maps/song/song.mp3"
             [Note.mk 480 500 1 None; Note.mk 0 1000 1 None]
           ++ ["    {1, 448, 400, 0, 500},"; "    {1, 64, 400, 0, 1000},"]
           ++ footer_lines)%list).
Proof. vm_compute. reflexivity. Qed.

(** A chart that ends at 61500 ms is 62 seconds long. *)
Example chart_length_61500 :
  chart_length [Note.mk 0 1000 1 None; Note.mk 64 60000 128 (Some 61500)] = 62.
Proof. reflexivity. Qed.

(** The end time [0] of a hold note is taken for a missing one. *)
Example end_time_zero :
  chart_length [Note.mk 0 5000 128 (Some 0)] = 6.
Proof. reflexivity. Qed.

(** Coordinates too large for a float, and key counts that make the column
    width underflow, raise. *)
Example mapper_raises :
  map_column_x_to_Vectra_x (2 ^ 1024) 4 512 = Raise OverflowError /\
  map_column_x_to_Vectra_x 5 (10 ^ 400) 512 = Raise ZeroDivisionError /\
  map_column_x_to_Vectra_x 5 0 512 = Raise ZeroDivisionError.
Proof. repeat split; vm_compute; reflexivity. Qed.
